(** * goong-geocoder-js: the query controller of [src/lib/index.js]

    A shallow embedding of the [GoongGeocoder] control: its option bag, the
    fields of [this], the typeahead it drives, the requests it sends and the
    continuations it attaches to them.  Methods are computations in a small
    state-and-log monad: the state is the object graph reachable from [this]
    together with the requests in flight, the log is the ordered sequence of
    writes and outward calls the method performs. *)

From Stdlib Require Import List String Ascii ZArith QArith Bool Lia.
Import ListNotations.
Close Scope Q_scope.
Open Scope string_scope.
Open Scope Z_scope.

(** ** Data exchanged with the Goong services *)

(** One autocomplete candidate, with the properties the control reads:
    [item.description], [selected.place_id] and
    [item.structured_formatting.{main_text,secondary_text}]. *)
Record StructuredFormatting := {
  main_text : string;
  secondary_text : string
}.

Record Prediction := {
  description : string;
  place_id : string;
  structured_formatting : StructuredFormatting
}.

(** [response.body] of a search. *)
Record SearchBody := { predictions : list Prediction }.

(** [response.body] of a place-detail request, read through
    [detail.result.geometry.location.{lat,lng}]. *)
Record Location := { lat : Q; lng : Q }.
Record Geometry := { location : Location }.
Record PlaceResult := { geometry : Geometry; formatted_address : string }.
Record PlaceDetail := { result : PlaceResult }.

(** The values [error.status] is compared with by [===]. *)
Inductive JsValue :=
| JsUndefined
| JsNull
| JsNumber (n : Z)
| JsString (s : string).

Record JsError := { status : JsValue; message : string }.

(** [v === 0]. *)
Definition strict_eq_zero (v : JsValue) : bool :=
  match v with
  | JsNumber 0 => true
  | _ => false
  end.

(** ** Options *)

Definition LngLat : Type := (Q * Q)%type.

(** The argument of [map.flyTo]; an absent property is [None]. *)
Record FlyOptions := {
  fly_center : option LngLat;
  fly_zoom : option Z;
  fly_speed : option Q
}.

(** [options.flyTo] is a boolean or an object of fly options. *)
Inductive FlyToOption :=
| FlyToBool (b : bool)
| FlyToObject (o : FlyOptions).

(** [options.marker] is a boolean or an object of marker options. *)
Inductive MarkerOption :=
| MarkerBool (b : bool)
| MarkerObject (color : option string).

Record Proximity := { latitude : Q; longitude : Q }.

Record Options := {
  zoom : Z;
  flyTo : FlyToOption;
  trackProximity : bool;
  minLength : Z;
  limit : Z;
  radius : Z;
  marker : MarkerOption;
  goongjs : bool;
  clearAndBlurOnEsc : bool;
  clearOnBlur : bool;
  proximity : option Proximity
}.

(** JavaScript truthiness of the option values that are tested. *)
Definition flyTo_truthy (f : FlyToOption) : bool :=
  match f with
  | FlyToBool b => b
  | FlyToObject _ => true
  end.

Definition marker_truthy (m : MarkerOption) : bool :=
  match m with
  | MarkerBool b => b
  | MarkerObject _ => true
  end.

Definition number_truthy (q : Q) : bool := negb (Qeq_bool q (0 # 1)).

(** [this.options.proximity && proximity.latitude && proximity.longitude]. *)
Definition proximity_truthy (p : option Proximity) : bool :=
  match p with
  | Some p => number_truthy (latitude p) && number_truthy (longitude p)
  | None => false
  end.

(** The prototype's [options] (lines 57-77). *)
Definition default_options : Options := {|
  zoom := 16;
  flyTo := FlyToBool true;
  trackProximity := true;
  minLength := 2;
  limit := 5;
  radius := 3000;
  marker := MarkerBool true;
  goongjs := false;
  clearAndBlurOnEsc := false;
  clearOnBlur := false;
  proximity := None
|}.

(** ** The suggestion store *)

(** Modelled from the spec: the [suggestions] typeahead is an external
    package that is not under src/; section 4.1 gives its contract: [update]
    replaces the list and resets the selection, [clear] empties list and
    selection, [renderError] displays a message in place of the list. *)
Record Typeahead := {
  data : list Prediction;
  selected : option Prediction;
  rendered_message : option string
}.

Definition typeahead_update (l : list Prediction) (t : Typeahead) : Typeahead :=
  {| data := l; selected := None; rendered_message := None |}.

Definition typeahead_clear (t : Typeahead) : Typeahead :=
  {| data := []; selected := None; rendered_message := rendered_message t |}.

Definition typeahead_renderError (msg : string) (t : Typeahead) : Typeahead :=
  {| data := []; selected := selected t; rendered_message := Some msg |}.

Definition typeahead_set_selected (s : option Prediction) (t : Typeahead) : Typeahead :=
  {| data := data t; selected := s; rendered_message := rendered_message t |}.

(** ** The controller object *)

Inductive Display := DisplayDefault | DisplayNone | DisplayBlock.

Record Marker := { marker_color : string; marker_lngLat : LngLat }.

(** The fields of [this] that the handlers read or write.  [_map] and
    [_goongjs] hold the truthiness of the respective references. *)
Record Geocoder := {
  options : Options;
  inputString : string;
  fresh : bool;
  lastSelected : option string;
  _map : bool;
  _goongjs : bool;
  mapMarker : option Marker;
  _inputEl_value : string;
  _clearEl_display : Display;
  _loadingEl_display : Display;
  _typeahead : Typeahead
}.

Definition set_inputString (v : string) (g : Geocoder) : Geocoder :=
  {| options := options g; inputString := v; fresh := fresh g;
     lastSelected := lastSelected g; _map := _map g; _goongjs := _goongjs g;
     mapMarker := mapMarker g; _inputEl_value := _inputEl_value g;
     _clearEl_display := _clearEl_display g;
     _loadingEl_display := _loadingEl_display g; _typeahead := _typeahead g |}.

Definition set_fresh (v : bool) (g : Geocoder) : Geocoder :=
  {| options := options g; inputString := inputString g; fresh := v;
     lastSelected := lastSelected g; _map := _map g; _goongjs := _goongjs g;
     mapMarker := mapMarker g; _inputEl_value := _inputEl_value g;
     _clearEl_display := _clearEl_display g;
     _loadingEl_display := _loadingEl_display g; _typeahead := _typeahead g |}.

Definition set_lastSelected (v : option string) (g : Geocoder) : Geocoder :=
  {| options := options g; inputString := inputString g; fresh := fresh g;
     lastSelected := v; _map := _map g; _goongjs := _goongjs g;
     mapMarker := mapMarker g; _inputEl_value := _inputEl_value g;
     _clearEl_display := _clearEl_display g;
     _loadingEl_display := _loadingEl_display g; _typeahead := _typeahead g |}.

Definition set_mapMarker (v : option Marker) (g : Geocoder) : Geocoder :=
  {| options := options g; inputString := inputString g; fresh := fresh g;
     lastSelected := lastSelected g; _map := _map g; _goongjs := _goongjs g;
     mapMarker := v; _inputEl_value := _inputEl_value g;
     _clearEl_display := _clearEl_display g;
     _loadingEl_display := _loadingEl_display g; _typeahead := _typeahead g |}.

Definition set_inputEl_value (v : string) (g : Geocoder) : Geocoder :=
  {| options := options g; inputString := inputString g; fresh := fresh g;
     lastSelected := lastSelected g; _map := _map g; _goongjs := _goongjs g;
     mapMarker := mapMarker g; _inputEl_value := v;
     _clearEl_display := _clearEl_display g;
     _loadingEl_display := _loadingEl_display g; _typeahead := _typeahead g |}.

Definition set_clearEl_display (v : Display) (g : Geocoder) : Geocoder :=
  {| options := options g; inputString := inputString g; fresh := fresh g;
     lastSelected := lastSelected g; _map := _map g; _goongjs := _goongjs g;
     mapMarker := mapMarker g; _inputEl_value := _inputEl_value g;
     _clearEl_display := v;
     _loadingEl_display := _loadingEl_display g; _typeahead := _typeahead g |}.

Definition set_loadingEl_display (v : Display) (g : Geocoder) : Geocoder :=
  {| options := options g; inputString := inputString g; fresh := fresh g;
     lastSelected := lastSelected g; _map := _map g; _goongjs := _goongjs g;
     mapMarker := mapMarker g; _inputEl_value := _inputEl_value g;
     _clearEl_display := _clearEl_display g;
     _loadingEl_display := v; _typeahead := _typeahead g |}.

Definition map_typeahead (f : Typeahead -> Typeahead) (g : Geocoder) : Geocoder :=
  {| options := options g; inputString := inputString g; fresh := fresh g;
     lastSelected := lastSelected g; _map := _map g; _goongjs := _goongjs g;
     mapMarker := mapMarker g; _inputEl_value := _inputEl_value g;
     _clearEl_display := _clearEl_display g;
     _loadingEl_display := _loadingEl_display g;
     _typeahead := f (_typeahead g) |}.

(** ** [JSON.stringify] of a candidate

    [_onChange] compares [JSON.stringify(selected)] with [this.lastSelected].
    Strings are sequences of 8-bit code units; the properties are written in
    the order of the record. *)

Definition dquote : string := String (ascii_of_nat 34) EmptyString.

Definition hex_digit (n : nat) : string :=
  String (nth n (list_ascii_of_string "0123456789abcdef") "0"%char) EmptyString.

Definition json_escape_char (c : ascii) : string :=
  let n := nat_of_ascii c in
  if Nat.eqb n 34 then "\" ++ dquote
  else if Nat.eqb n 92 then "\\"
  else if Nat.eqb n 8 then "\b"
  else if Nat.eqb n 9 then "\t"
  else if Nat.eqb n 10 then "\n"
  else if Nat.eqb n 12 then "\f"
  else if Nat.eqb n 13 then "\r"
  else if Nat.ltb n 32 then "\u00" ++ hex_digit (Nat.div n 16) ++ hex_digit (Nat.modulo n 16)
  else String c EmptyString.

Fixpoint json_escape (s : string) : string :=
  match s with
  | EmptyString => EmptyString
  | String c s' => json_escape_char c ++ json_escape s'
  end.

Definition json_string (s : string) : string := dquote ++ json_escape s ++ dquote.

Definition json_member (key value : string) : string :=
  json_string key ++ ":" ++ value.

Definition JSON_stringify (p : Prediction) : string :=
  "{" ++ json_member "description" (json_string (description p)) ++ ","
      ++ json_member "place_id" (json_string (place_id p)) ++ ","
      ++ json_member "structured_formatting"
           ("{" ++ json_member "main_text"
                     (json_string (main_text (structured_formatting p))) ++ ","
                ++ json_member "secondary_text"
                     (json_string (secondary_text (structured_formatting p)))
                ++ "}")
      ++ "}".

(** ** Requests, events and the log of a handler *)

(** The query object passed to [autoCompleteService.search]; [q_location]
    stands for the string [latitude + "," + longitude]. *)
Record SearchConfig := {
  q_input : string;
  q_radius : Z;
  q_location : option (Q * Q)
}.

Inductive Request :=
| SearchRequest (config : SearchConfig)
| PlaceDetailRequest (placeid : string).

(** The callbacks attached to a request with [then] and [catch]; those of a
    detail request close over the local [selected]. *)
Inductive Continuation :=
| SearchCallbacks
| DetailCallbacks (sel : Prediction).

(** What the host can listen to with [on]. *)
Inductive Event :=
| EvLoading (query : string)
| EvResults (res : SearchBody)
| EvResult (detail : PlaceDetail)
| EvClear
| EvError (error : option JsError).

Inductive Field :=
| F_inputString
| F_fresh
| F_lastSelected
| F_mapMarker
| F_inputEl_value
| F_clearEl_display
| F_loadingEl_display
| F_typeahead_selected.

Inductive StoreCall :=
| StoreUpdate (l : list Prediction)
| StoreClear
| StoreRenderError (msg : string)
| StoreSelect (p : Prediction).

Inductive DomCall :=
| PreventDefault
| InputFocus
| InputBlur
| InputScrollLeft
| InputSetSelectionRange.

(** One step of a handler, in program order. *)
Inductive Action :=
| Write (f : Field)
| Store (c : StoreCall)
| Emit (e : Event)
| Send (id : nat) (r : Request)
| MapFlyTo (o : FlyOptions)
| MarkerAddTo (m : Marker)
| MarkerRemove
| Dom (c : DomCall).

(** ** The world and the monad of handlers *)

Record World := {
  this : Geocoder;
  inflight : list (nat * Continuation);
  next_request : nat
}.

Definition with_this (f : Geocoder -> Geocoder) (w : World) : World :=
  {| this := f (this w); inflight := inflight w; next_request := next_request w |}.

Definition M (A : Type) : Type := World -> A * World * list Action.

Definition ret {A} (a : A) : M A := fun w => (a, w, []).

Definition bind {A B} (m : M A) (k : A -> M B) : M B :=
  fun w =>
    let '(a, w1, l1) := m w in
    let '(b, w2, l2) := k a w1 in
    (b, w2, (l1 ++ l2)%list).

Notation "x <- c ;; k" := (bind c (fun x => k))
  (at level 61, c at next level, right associativity).
Notation "c ;; k" := (bind c (fun _ => k))
  (at level 61, right associativity).

Definition exec {A} (m : M A) (w : World) : World := snd (fst (m w)).
Definition log_of {A} (m : M A) (w : World) : list Action := snd (m w).

Definition get_this : M Geocoder := fun w => (this w, w, []).

Definition assign (f : Field) (upd : Geocoder -> Geocoder) : M unit :=
  fun w => (tt, with_this upd w, [Write f]).

Definition store (c : StoreCall) : M unit :=
  fun w =>
    let upd :=
      match c with
      | StoreUpdate l => typeahead_update l
      | StoreClear => typeahead_clear
      | StoreRenderError msg => typeahead_renderError msg
      | StoreSelect p => typeahead_set_selected (Some p)
      end in
    (tt, with_this (map_typeahead upd) w, [Store c]).

Definition emit (e : Event) : M unit := fun w => (tt, w, [Emit e]).

Definition call (a : Action) : M unit := fun w => (tt, w, [a]).

Definition when (b : bool) (m : M unit) : M unit := if b then m else ret tt.

(** [service.<op>(..).send()] followed by [request.then(..)] and
    [request.catch(..)]: the request goes out and its callbacks wait. *)
Definition send (r : Request) (k : Continuation) : M nat :=
  fun w =>
    let id := next_request w in
    (id,
     {| this := this w;
        inflight := (inflight w ++ [(id, k)])%list;
        next_request := S id |},
     [Send id r]).

(** ** Methods of [GoongGeocoder.prototype] *)

Definition errorMessage : string :=
  "<div class='goong-js-geocoder--error'>There was an error reaching the server</div>".

Definition noResultsMessage : string :=
  "<div class='goong-js-geocoder--error goongjs-gl-geocoder--no-results'>No results found</div>".

Definition _renderMessage (msg : string) : M unit :=
  store (StoreUpdate []) ;;
  assign F_typeahead_selected (map_typeahead (typeahead_set_selected None)) ;;
  store StoreClear ;;
  store (StoreRenderError msg).

Definition _renderError : M unit := _renderMessage errorMessage.

Definition _renderNoResults : M unit := _renderMessage noResultsMessage.

Definition _removeMarker : M unit :=
  g <- get_this ;;
  match mapMarker g with
  | Some _ => call MarkerRemove ;; assign F_mapMarker (set_mapMarker None)
  | None => ret tt
  end.

Definition detail_lngLat (detail : PlaceDetail) : LngLat :=
  (lng (location (geometry (result detail))),
   lat (location (geometry (result detail)))).

(** [extend({}, {color: '#469af7'}, this.options.marker).color]. *)
Definition extend_marker_color (m : MarkerOption) : string :=
  match m with
  | MarkerObject (Some c) => c
  | _ => "#469af7"
  end.

(** The marker is built, stored in [this.mapMarker], positioned and added to
    the map; the stored reference sees the position. *)
Definition _handleMarker (response : PlaceDetail) : M unit :=
  g <- get_this ;;
  if negb (_map g) then ret tt
  else
    _removeMarker ;;
    let m := {| marker_color := extend_marker_color (marker (options g));
                marker_lngLat := detail_lngLat response |} in
    assign F_mapMarker (set_mapMarker (Some m)) ;;
    call (MarkerAddTo m).

Definition or_else {A} (a b : option A) : option A :=
  match a with
  | Some _ => a
  | None => b
  end.

(** [extend({}, defaultFlyOptions, this.options.flyTo)]: a boolean has no
    properties of its own. *)
Definition extend_fly (defaults : FlyOptions) (f : FlyToOption) : FlyOptions :=
  match f with
  | FlyToBool _ => defaults
  | FlyToObject o =>
      {| fly_center := or_else (fly_center o) (fly_center defaults);
         fly_zoom := or_else (fly_zoom o) (fly_zoom defaults);
         fly_speed := or_else (fly_speed o) (fly_speed defaults) |}
  end.

Definition set_center (c : LngLat) (o : FlyOptions) : FlyOptions :=
  {| fly_center := Some c; fly_zoom := fly_zoom o; fly_speed := fly_speed o |}.

Definition flyOptions_for (g : Geocoder) (detail : PlaceDetail) : FlyOptions :=
  let defaultFlyOptions :=
    {| fly_center := None; fly_zoom := Some (zoom (options g)); fly_speed := None |} in
  set_center (detail_lngLat detail)
             (extend_fly defaultFlyOptions (flyTo (options g))).

(** The success callback of the detail request (lines 307-340). *)
Definition _onChange_then (sel : Prediction) (detail : PlaceDetail) : M unit :=
  assign F_clearEl_display (set_clearEl_display DisplayNone) ;;
  g <- get_this ;;
  when (_map g) (call (MapFlyTo (flyOptions_for g detail))) ;;
  when (marker_truthy (marker (options g)) && _goongjs g) (_handleMarker detail) ;;
  call (Dom InputFocus) ;;
  call (Dom InputScrollLeft) ;;
  call (Dom InputSetSelectionRange) ;;
  assign F_lastSelected (set_lastSelected (Some (JSON_stringify sel))) ;;
  emit (EvResult detail).

(** The failure callback of the detail request (lines 342-345). *)
Definition _onChange_catch (error : option JsError) : M unit :=
  emit (EvError error).

(** [JSON.stringify(selected) !== this.lastSelected]; [null] differs from
    every string. *)
Definition differs_from_last (s : string) (last : option string) : bool :=
  match last with
  | Some l => negb (String.eqb s l)
  | None => true
  end.

Definition _onChange : M unit :=
  g <- get_this ;;
  match selected (_typeahead g) with
  | Some sel =>
      if differs_from_last (JSON_stringify sel) (lastSelected g) then
        if negb (flyTo_truthy (flyTo (options g))) then ret tt
        else
          _ <- send (PlaceDetailRequest (place_id sel)) (DetailCallbacks sel) ;;
          ret tt
      else ret tt
  | None => ret tt
  end.

Definition search_config (g : Geocoder) (searchInput : string) : SearchConfig :=
  let o := options g in
  {| q_input := searchInput;
     q_radius := radius o;
     q_location :=
       if trackProximity o && _map g && proximity_truthy (proximity o)
       then match proximity o with
            | Some p => Some (latitude p, longitude p)
            | None => None
            end
       else None |}.

Definition _geocode (searchInput : string) : M nat :=
  assign F_loadingEl_display (set_loadingEl_display DisplayBlock) ;;
  emit (EvLoading searchInput) ;;
  assign F_inputString (set_inputString searchInput) ;;
  g <- get_this ;;
  send (SearchRequest (search_config g searchInput)) SearchCallbacks.

(** The success callback of the search request (lines 369-386). *)
Definition _geocode_then (res : SearchBody) : M unit :=
  assign F_loadingEl_display (set_loadingEl_display DisplayNone) ;;
  g <- get_this ;;
  when (fresh g) (assign F_fresh (set_fresh false)) ;;
  match predictions res with
  | _ :: _ =>
      assign F_clearEl_display (set_clearEl_display DisplayBlock) ;;
      emit (EvResults res) ;;
      store (StoreUpdate (predictions res))
  | [] =>
      assign F_clearEl_display (set_clearEl_display DisplayNone) ;;
      assign F_typeahead_selected (map_typeahead (typeahead_set_selected None)) ;;
      _renderNoResults ;;
      emit (EvResults res)
  end.

(** [error && error.status === 0]. *)
Definition aborted (error : option JsError) : bool :=
  match error with
  | Some e => strict_eq_zero (status e)
  | None => false
  end.

(** The failure callback of the search request (lines 388-396). *)
Definition _geocode_catch (error : option JsError) : M unit :=
  if aborted error then ret tt
  else
    assign F_loadingEl_display (set_loadingEl_display DisplayNone) ;;
    assign F_clearEl_display (set_clearEl_display DisplayNone) ;;
    assign F_typeahead_selected (map_typeahead (typeahead_set_selected None)) ;;
    _renderError ;;
    emit (EvResults {| predictions := [] |}) ;;
    emit (EvError error).

(** [ev] tells whether an event object was passed. *)
Definition _clear (ev : bool) : M unit :=
  when ev (call (Dom PreventDefault)) ;;
  assign F_inputEl_value (set_inputEl_value EmptyString) ;;
  assign F_typeahead_selected (map_typeahead (typeahead_set_selected None)) ;;
  store StoreClear ;;
  _onChange ;;
  assign F_clearEl_display (set_clearEl_display DisplayNone) ;;
  _removeMarker ;;
  assign F_lastSelected (set_lastSelected None) ;;
  emit EvClear ;;
  assign F_fresh (set_fresh true).

Definition clear (ev : bool) : M unit :=
  _clear ev ;;
  call (Dom InputFocus).

(** [e.target], resolved through [shadowRoot.activeElement] when the target
    has a shadow root: nothing, the control's own input element, or another
    element with its [value]. *)
Inductive EventTarget :=
| TargetNone
| TargetInput
| TargetActiveElement (value : string).

Record KeyEvent := {
  keyCode : Z;
  metaKey : bool;
  target : EventTarget
}.

Definition ESC_KEY_CODE : Z := 27.
Definition TAB_KEY_CODE : Z := 9.

(** TAB, ESC, LEFT, RIGHT, ENTER, UP, DOWN (line 277). *)
Definition navigation_keys : list Z :=
  [TAB_KEY_CODE; ESC_KEY_CODE; 37; 39; 13; 38; 40].

(** [e.metaKey || [...].indexOf(e.keyCode) !== -1]. *)
Definition ignored_key (e : KeyEvent) : bool :=
  metaKey e || existsb (Z.eqb (keyCode e)) navigation_keys.

(** [target ? target.value : '']. *)
Definition target_value (g : Geocoder) (t : EventTarget) : string :=
  match t with
  | TargetNone => EmptyString
  | TargetInput => _inputEl_value g
  | TargetActiveElement v => v
  end.

Definition is_empty (s : string) : bool :=
  match s with
  | EmptyString => true
  | String _ _ => false
  end.

Definition js_length (s : string) : Z := Z.of_nat (String.length s).

Definition _onPaste (value : string) : M unit :=
  g <- get_this ;;
  if minLength (options g) <=? js_length value
  then _ <- _geocode value ;; ret tt
  else ret tt.

Definition _onKeyDown (e : KeyEvent) : M unit :=
  g <- get_this ;;
  if (keyCode e =? ESC_KEY_CODE) && clearAndBlurOnEsc (options g) then
    _clear true ;;
    call (Dom InputBlur)
  else
    let value := target_value g (target e) in
    if is_empty value then
      assign F_fresh (set_fresh true) ;;
      when (negb (keyCode e =? TAB_KEY_CODE)) (clear true) ;;
      assign F_clearEl_display (set_clearEl_display DisplayNone)
    else if ignored_key e then ret tt
    else if minLength (options g) <=? js_length value
    then _ <- _geocode value ;; ret tt
    else ret tt.

(** [relatedTarget] tells whether [ev.relatedTarget] is set. *)
Definition _clearOnBlur (relatedTarget : bool) : M unit :=
  when relatedTarget (_clear true).

Definition _onBlur (relatedTarget : bool) : M unit :=
  g <- get_this ;;
  when (clearOnBlur (options g)) (_clearOnBlur relatedTarget).

Definition setInput (searchInput : string) : M unit :=
  assign F_inputEl_value (set_inputEl_value searchInput) ;;
  assign F_typeahead_selected (map_typeahead (typeahead_set_selected None)) ;;
  store StoreClear ;;
  _onChange.

(** ** Construction *)

Definition set_options (o : Options) (g : Geocoder) : Geocoder :=
  {| options := o; inputString := inputString g; fresh := fresh g;
     lastSelected := lastSelected g; _map := _map g; _goongjs := _goongjs g;
     mapMarker := mapMarker g; _inputEl_value := _inputEl_value g;
     _clearEl_display := _clearEl_display g;
     _loadingEl_display := _loadingEl_display g; _typeahead := _typeahead g |}.

Definition set_marker (m : MarkerOption) (o : Options) : Options :=
  {| zoom := zoom o; flyTo := flyTo o; trackProximity := trackProximity o;
     minLength := minLength o; limit := limit o; radius := radius o;
     marker := m; goongjs := goongjs o;
     clearAndBlurOnEsc := clearAndBlurOnEsc o; clearOnBlur := clearOnBlur o;
     proximity := proximity o |}.

Definition setProximity (p : option Proximity) (o : Options) : Options :=
  {| zoom := zoom o; flyTo := flyTo o; trackProximity := trackProximity o;
     minLength := minLength o; limit := limit o; radius := radius o;
     marker := marker o; goongjs := goongjs o;
     clearAndBlurOnEsc := clearAndBlurOnEsc o; clearOnBlur := clearOnBlur o;
     proximity := p |}.

Definition setFlyTo (f : FlyToOption) (o : Options) : Options :=
  {| zoom := zoom o; flyTo := f; trackProximity := trackProximity o;
     minLength := minLength o; limit := limit o; radius := radius o;
     marker := marker o; goongjs := goongjs o;
     clearAndBlurOnEsc := clearAndBlurOnEsc o; clearOnBlur := clearOnBlur o;
     proximity := proximity o |}.

(** What the control reads from the map it is added to: [getZoom()] and
    [getCenter().wrap()]. *)
Record MapView := { getZoom : Q; getCenter_wrap : LngLat }.

(** The constructor (lines 48-54); the elements and the typeahead that
    [onAdd] creates are given their initial contents here. *)
Definition GoongGeocoder (opts : Options) : Geocoder :=
  {| options := opts; inputString := EmptyString; fresh := true;
     lastSelected := None; _map := false; _goongjs := false;
     mapMarker := None; _inputEl_value := EmptyString;
     _clearEl_display := DisplayDefault;
     _loadingEl_display := DisplayDefault;
     _typeahead := {| data := []; selected := None; rendered_message := None |} |}.

Definition _updateProximity (view : MapView) (o : Options) : Options :=
  if Qle_bool (getZoom view) (9 # 1) then setProximity None o
  else setProximity (Some {| longitude := fst (getCenter_wrap view);
                             latitude := snd (getCenter_wrap view) |}) o.

(** The state that [onAdd] sets up (lines 122-225), the construction of the
    elements left aside. *)
Definition onAdd (map : option MapView) (g : Geocoder) : Geocoder :=
  match map with
  | Some view =>
      let o1 := if trackProximity (options g)
                then _updateProximity view (options g) else options g in
      let o2 := if negb (goongjs o1) && marker_truthy (marker o1)
                then set_marker (MarkerBool false) o1 else o1 in
      {| options := o2; inputString := inputString g; fresh := fresh g;
         lastSelected := lastSelected g; _map := true; _goongjs := goongjs o1;
         mapMarker := None; _inputEl_value := EmptyString;
         _clearEl_display := DisplayDefault;
         _loadingEl_display := DisplayDefault;
         _typeahead := {| data := []; selected := None; rendered_message := None |} |}
  | None =>
      {| options := options g; inputString := inputString g; fresh := fresh g;
         lastSelected := lastSelected g; _map := _map g; _goongjs := _goongjs g;
         mapMarker := None; _inputEl_value := EmptyString;
         _clearEl_display := DisplayDefault;
         _loadingEl_display := DisplayDefault;
         _typeahead := {| data := []; selected := None; rendered_message := None |} |}
  end.

Definition mount (opts : Options) (map : option MapView) : World :=
  {| this := onAdd map (GoongGeocoder opts); inflight := []; next_request := 0%nat |}.

(** ** The event loop *)

(** How a request in flight is settled. *)
Inductive Settlement :=
| SearchResolved (body : SearchBody)
| DetailResolved (detail : PlaceDetail)
| Rejected (error : option JsError).

Fixpoint lookup_request (id : nat) (l : list (nat * Continuation)) : option Continuation :=
  match l with
  | [] => None
  | (i, k) :: l' => if Nat.eqb i id then Some k else lookup_request id l'
  end.

Fixpoint remove_request (id : nat) (l : list (nat * Continuation)) : list (nat * Continuation) :=
  match l with
  | [] => []
  | (i, k) :: l' => if Nat.eqb i id then l' else (i, k) :: remove_request id l'
  end.

Definition forget (id : nat) (w : World) : World :=
  {| this := this w; inflight := remove_request id (inflight w);
     next_request := next_request w |}.

(** A promise settles once and runs the callback attached for that outcome;
    a body of the other service's shape is not an input of this model. *)
Definition settle (id : nat) (s : Settlement) : M unit :=
  fun w =>
    match lookup_request id (inflight w), s with
    | Some SearchCallbacks, SearchResolved body => _geocode_then body (forget id w)
    | Some SearchCallbacks, Rejected error => _geocode_catch error (forget id w)
    | Some (DetailCallbacks sel), DetailResolved detail =>
        _onChange_then sel detail (forget id w)
    | Some (DetailCallbacks sel), Rejected error => _onChange_catch error (forget id w)
    | _, _ => (tt, w, [])
    end.

(** The user picks a candidate of the list: the typeahead records it and the
    input's [change] listener runs. *)
Definition select (p : Prediction) : M unit :=
  store (StoreSelect p) ;;
  _onChange.

Inductive Input :=
| KeyDown (e : KeyEvent)
| Paste (text : string)
| Select (p : Prediction)
| Change
| ClearClick
| Blur (relatedTarget : bool)
| Settle (id : nat) (s : Settlement).

Definition handle (i : Input) : M unit :=
  match i with
  | KeyDown e => _onKeyDown e
  | Paste text => _onPaste text
  | Select p => select p
  | Change => _onChange
  | ClearClick => clear true
  | Blur r => _onBlur r
  | Settle id s => settle id s
  end.

Fixpoint run (ins : list Input) : M unit :=
  match ins with
  | [] => ret tt
  | i :: ins' => handle i ;; run ins'
  end.

(** ** Reading a log *)

Definition is_mutation (a : Action) : bool :=
  match a with
  | Write _ | Store _ => true
  | _ => false
  end.

Definition is_emit (a : Action) : bool :=
  match a with
  | Emit _ => true
  | _ => false
  end.

Fixpoint searches (l : list Action) : list SearchConfig :=
  match l with
  | [] => []
  | Send _ (SearchRequest c) :: l' => c :: searches l'
  | _ :: l' => searches l'
  end.

Fixpoint detail_requests (l : list Action) : list string :=
  match l with
  | [] => []
  | Send _ (PlaceDetailRequest p) :: l' => p :: detail_requests l'
  | _ :: l' => detail_requests l'
  end.

Fixpoint emitted (l : list Action) : list Event :=
  match l with
  | [] => []
  | Emit e :: l' => e :: emitted l'
  | _ :: l' => emitted l'
  end.

Fixpoint rendered (l : list Action) : list string :=
  match l with
  | [] => []
  | Store (StoreRenderError msg) :: l' => msg :: rendered l'
  | _ :: l' => rendered l'
  end.

(** No write to the controller or to the suggestion store follows an
    emission. *)
Fixpoint emit_is_last (l : list Action) : bool :=
  match l with
  | [] => true
  | Emit _ :: l' => forallb (fun a => negb (is_mutation a)) l' && emit_is_last l'
  | _ :: l' => emit_is_last l'
  end.

(** ** The debounced keydown listener (line 167) *)

Module Debounce.

(** [debounce(this._onKeyDown, 200)]. *)
Definition wait : Z := 200.

(** Modelled from the spec: [lodash.debounce] is an external package that
    is not under src/; the glossary has debounce as delaying action dispatch
    until a quiet period follows the triggering events.  Each call arms the
    timer anew, [wait] milliseconds ahead, and keeps the arguments of that
    call; when the timer expires the wrapped function runs once on them. *)
Record Page := {
  world : World;
  timer : option (Z * KeyEvent)
}.

(** A key press: when it happens, the event the listener receives and the
    content of the input element once the key has acted on it. *)
Record Keystroke := {
  at_time : Z;
  event : KeyEvent;
  value_after : string
}.

Definition expire (p : Page) : Page * list Action :=
  match timer p with
  | Some (_, e) =>
      let '(_, w, l) := _onKeyDown e (world p) in
      ({| world := w; timer := None |}, l)
  | None => (p, [])
  end.

(** Timers that are due at [now] run before the event of that moment. *)
Definition advance (now : Z) (p : Page) : Page * list Action :=
  match timer p with
  | Some (deadline, _) => if deadline <=? now then expire p else (p, [])
  | None => (p, [])
  end.

Definition press (k : Keystroke) (p : Page) : Page * list Action :=
  let '(p1, l) := advance (at_time k) p in
  ({| world := with_this (set_inputEl_value (value_after k)) (world p1);
      timer := Some (at_time k + wait, event k) |}, l).

Fixpoint type_keys (ks : list Keystroke) (p : Page) : Page * list Action :=
  match ks with
  | [] => (p, [])
  | k :: ks' =>
      let '(p1, l1) := press k p in
      let '(p2, l2) := type_keys ks' p1 in
      (p2, (l1 ++ l2)%list)
  end.

(** Consecutive presses are less than [wait] apart. *)
Fixpoint rapid (ks : list Keystroke) : bool :=
  match ks with
  | k1 :: ks' =>
      match ks' with
      | k2 :: _ =>
          (at_time k1 <=? at_time k2) && (at_time k2 <? at_time k1 + wait)
          && rapid ks'
      | [] => true
      end
  | [] => true
  end.

(** The last press of the sequence [k :: ks]. *)
Fixpoint final (k : Keystroke) (ks : list Keystroke) : Keystroke :=
  match ks with
  | [] => k
  | k' :: ks' => final k' ks'
  end.

(** The timer, if armed, expires after the moment [t]. *)
Definition not_due (t : Z) (p : Page) : Prop :=
  match timer p with
  | Some (deadline, _) => t < deadline
  | None => True
  end.

End Debounce.

(** ** The properties as the specification words them *)

(** [trimmedLength(text)]: the length without leading and trailing white
    space. *)
Definition is_space (c : ascii) : bool :=
  let n := nat_of_ascii c in
  (Nat.eqb n 32 || (Nat.leb 9 n && Nat.leb n 13))%bool.

Fixpoint trim_start (s : string) : string :=
  match s with
  | String c s' => if is_space c then trim_start s' else s
  | EmptyString => EmptyString
  end.

Fixpoint rev_string (s acc : string) : string :=
  match s with
  | String c s' => rev_string s' (String c acc)
  | EmptyString => acc
  end.

Definition trim (s : string) : string :=
  rev_string (trim_start (rev_string (trim_start s) EmptyString)) EmptyString.

Definition trimmedLength (s : string) : Z := js_length (trim s).

(** As the specification states it: once a second search has been issued, the
    response of the first changes nothing and is not reported. *)
Definition stale_response_is_silent : Prop :=
  forall (w : World) (q1 q2 : string) (s : Settlement),
    let stale := next_request w in
    let w2 := exec (_geocode q1 ;; _geocode q2) w in
    this (exec (settle stale s) w2) = this w2 /\
    log_of (settle stale s) w2 = [].


(** The transitions that end in an emission. *)
Inductive Transition :=
| SearchSuccess (res : SearchBody)
| SearchFailure (error : option JsError)
| SelectionSuccess (sel : Prediction) (detail : PlaceDetail)
| Clear (ev : bool).

Definition transition (t : Transition) : M unit :=
  match t with
  | SearchSuccess res => _geocode_then res
  | SearchFailure error => _geocode_catch error
  | SelectionSuccess sel detail => _onChange_then sel detail
  | Clear ev => _clear ev
  end.

(** As the specification states it: in every transition nothing is written after
    the emission. *)
Definition emit_ends_every_transition : Prop :=
  forall (t : Transition) (w : World),
    emit_is_last (log_of (transition t) w) = true.

(** As the specification states it: a key press searches exactly when the trimmed
    text is long enough and the key is not a navigation key. *)
Definition search_iff_trimmed_length_suffices : Prop :=
  forall (w : World) (e : KeyEvent),
    searches (log_of (_onKeyDown e) w) <> [] <->
    (minLength (options (this w))
       <= trimmedLength (target_value (this w) (target e)) /\
     ignored_key e = false).

(** ** Requests in flight *)

(** Identifiers of the requests in flight lie below the next one to be
    issued. *)
Definition well_formed (w : World) : Prop :=
  Forall (fun r => (fst r < next_request w)%nat) (inflight w).

(** A computation that keeps the identifiers in order. *)
Definition preserves {A} (m : M A) : Prop :=
  forall w, well_formed w -> well_formed (exec m w).

(** ** Sample data *)

Definition hanoi : Prediction :=
  {| description := "Hanoi, Vietnam"; place_id := "p1";
     structured_formatting :=
       {| main_text := "Hanoi"; secondary_text := "Vietnam" |} |}.

Definition ha_long : Prediction :=
  {| description := "Ha Long, Quang Ninh"; place_id := "p2";
     structured_formatting :=
       {| main_text := "Ha Long"; secondary_text := "Quang Ninh" |} |}.

Definition hanoi_detail : PlaceDetail :=
  {| result :=
       {| geometry := {| location := {| lat := (21 # 1)%Q; lng := (1058 # 10)%Q |} |};
          formatted_address := "Hanoi, Vietnam" |} |}.

Definition city_view : MapView :=
  {| getZoom := (12 # 1)%Q; getCenter_wrap := ((1058 # 10)%Q, (21 # 1)%Q) |}.

Definition host_options : Options :=
  {| zoom := 16; flyTo := FlyToBool true; trackProximity := true;
     minLength := 2; limit := 5; radius := 3000; marker := MarkerBool true;
     goongjs := true; clearAndBlurOnEsc := false; clearOnBlur := false;
     proximity := None |}.

(** A control added to a map with the marker library at hand. *)
Definition on_map : World := mount host_options (Some city_view).

(** The same with [flyTo: false]. *)
Definition on_map_no_fly : World :=
  mount (setFlyTo (FlyToBool false) host_options) (Some city_view).

Definition server_error : option JsError :=
  Some {| status := JsNumber 500; message := "Internal Server Error" |}.

Definition abort_error : option JsError :=
  Some {| status := JsNumber 0; message := "Request aborted" |}.

(** The letter A pressed in the input element. *)
Definition key_a : KeyEvent :=
  {| keyCode := 65; metaKey := false; target := TargetInput |}.

(** Backspace on an input that has just been emptied. *)
Definition key_backspace : KeyEvent :=
  {| keyCode := 8; metaKey := false; target := TargetInput |}.

Import Debounce.

(** a, n, o typed 50 ms apart, after [key_h]. *)
Definition typing_hano : list Keystroke :=
  [ {| at_time := 50;
       event := {| keyCode := 65; metaKey := false; target := TargetInput |};
       value_after := "Ha" |};
    {| at_time := 100;
       event := {| keyCode := 78; metaKey := false; target := TargetInput |};
       value_after := "Han" |};
    {| at_time := 150;
       event := {| keyCode := 79; metaKey := false; target := TargetInput |};
       value_after := "Hano" |} ].

(** H pressed at time 0. *)
Definition key_h : Keystroke :=
  {| at_time := 0;
     event := {| keyCode := 72; metaKey := false; target := TargetInput |};
     value_after := "H" |}.

(** ** Further methods of the prototype *)

Definition set__map (v : bool) (g : Geocoder) : Geocoder :=
  {| options := options g; inputString := inputString g; fresh := fresh g;
     lastSelected := lastSelected g; _map := v; _goongjs := _goongjs g;
     mapMarker := mapMarker g; _inputEl_value := _inputEl_value g;
     _clearEl_display := _clearEl_display g;
     _loadingEl_display := _loadingEl_display g; _typeahead := _typeahead g |}.

Definition setZoom (z : Z) (o : Options) : Options :=
  {| zoom := z; flyTo := flyTo o; trackProximity := trackProximity o;
     minLength := minLength o; limit := limit o; radius := radius o;
     marker := marker o; goongjs := goongjs o;
     clearAndBlurOnEsc := clearAndBlurOnEsc o; clearOnBlur := clearOnBlur o;
     proximity := proximity o |}.

(** A setter that writes one property of [this.options] and returns [this]
    ([setProximity], [setZoom], [setFlyTo]). *)
Definition write_option (f : Options -> Options) (w : World) : World :=
  with_this (fun g => set_options (f (options g)) g) w.

(** [_updateProximity] as the [moveend] listener (lines 462-479): without a
    map it returns at once. *)
Definition on_moveend (view : MapView) (w : World) : World :=
  if _map (this w) then write_option (_updateProximity view) w else w.

Definition _showButton : M unit :=
  g <- get_this ;;
  match selected (_typeahead g) with
  | Some _ => assign F_clearEl_display (set_clearEl_display DisplayBlock)
  | None => ret tt
  end.

Definition _hideButton : M unit :=
  g <- get_this ;;
  match selected (_typeahead g) with
  | Some _ => assign F_clearEl_display (set_clearEl_display DisplayNone)
  | None => ret tt
  end.

(** Calls on the host page and on the map that [onRemove] makes besides
    those of the handlers. *)
Inductive HostCall :=
| RemoveContainer
| MapOffMoveend.

(** [onRemove] (lines 236-247): the container leaves its parent, the
    proximity listener is taken off the map, the marker is removed and the
    map is let go. *)
Definition onRemove (w : World) : World * list (HostCall + Action) :=
  let unsubscribe :=
    if trackProximity (options (this w)) && _map (this w)
    then [inl MapOffMoveend] else [] in
  let '(_, w1, l) := _removeMarker w in
  (with_this (set__map false) w1,
   (inl RemoveContainer :: unsubscribe ++ List.map inr l)%list).




(** The placeholder (lines 527-530 and 628-644): [options.placeholder],
    [this.placeholder] and the two attributes of the input element; [None]
    is [undefined]. *)
Record Placeholders := {
  options_placeholder : option string;
  this_placeholder : option string;
  _inputEl_placeholder : option string;
  _inputEl_aria_label : option string
}.

Definition string_truthy (s : option string) : bool :=
  match s with
  | Some (String _ _) => true
  | _ => false
  end.

Definition _getPlaceholderText (st : Placeholders) : string :=
  match options_placeholder st with
  | Some (String c s) => String c s
  | _ => "Search"
  end.

Definition setPlaceholder (placeholder : option string) (st : Placeholders) : Placeholders :=
  let text :=
    match placeholder with
    | Some (String c s) => String c s
    | _ => _getPlaceholderText st
    end in
  {| options_placeholder := options_placeholder st;
     this_placeholder := Some text;
     _inputEl_placeholder := Some text;
     _inputEl_aria_label := Some text |}.

Definition getPlaceholder (st : Placeholders) : option string :=
  options_placeholder st.

(** ** Reading a log, continued *)

Fixpoint flights (l : list Action) : list FlyOptions :=
  match l with
  | [] => []
  | MapFlyTo o :: l' => o :: flights l'
  | _ :: l' => flights l'
  end.

Fixpoint markers_added (l : list Action) : list Marker :=
  match l with
  | [] => []
  | MarkerAddTo m :: l' => m :: markers_added l'
  | _ :: l' => markers_added l'
  end.

(** Markers added to the map less markers removed from it. *)
Fixpoint marker_delta (l : list Action) : Z :=
  match l with
  | [] => 0
  | MarkerAddTo _ :: l' => 1 + marker_delta l'
  | MarkerRemove :: l' => marker_delta l' - 1
  | _ :: l' => marker_delta l'
  end.

(** Whether the control holds a marker. *)
Definition occupancy (w : World) : Z :=
  match mapMarker (this w) with
  | Some _ => 1
  | None => 0
  end.

Definition has_location (c : SearchConfig) : bool :=
  match q_location c with
  | Some _ => true
  | None => false
  end.

(** ** Reading back a serialised candidate *)

(** The value of a lower-case hexadecimal digit. *)
Definition hex_value (c : ascii) : option nat :=
  let n := nat_of_ascii c in
  if Nat.leb 48 n && Nat.leb n 57 then Some (n - 48)%nat
  else if Nat.leb 97 n && Nat.leb n 102 then Some (n - 87)%nat
  else None.

Definition continue_with (c : ascii) (r : option (string * string)) : option (string * string) :=
  match r with
  | Some (t, rest) => Some (String c t, rest)
  | None => None
  end.

(** Reads the content of a JSON string up to its closing quote and gives it
    with what follows the quote. *)
Fixpoint read_json_string (s : string) : option (string * string) :=
  match s with
  | EmptyString => None
  | String c s1 =>
      if Nat.eqb (nat_of_ascii c) 34 then Some (EmptyString, s1)
      else if Nat.eqb (nat_of_ascii c) 92 then
        match s1 with
        | String e s2 =>
            let n := nat_of_ascii e in
            if Nat.eqb n 34 then continue_with (ascii_of_nat 34) (read_json_string s2)
            else if Nat.eqb n 92 then continue_with (ascii_of_nat 92) (read_json_string s2)
            else if Nat.eqb n 98 then continue_with (ascii_of_nat 8) (read_json_string s2)
            else if Nat.eqb n 116 then continue_with (ascii_of_nat 9) (read_json_string s2)
            else if Nat.eqb n 110 then continue_with (ascii_of_nat 10) (read_json_string s2)
            else if Nat.eqb n 102 then continue_with (ascii_of_nat 12) (read_json_string s2)
            else if Nat.eqb n 114 then continue_with (ascii_of_nat 13) (read_json_string s2)
            else if Nat.eqb n 117 then
              match s2 with
              | String _ (String _ (String h1 (String h2 s3))) =>
                  match hex_value h1, hex_value h2 with
                  | Some a, Some b =>
                      continue_with (ascii_of_nat (16 * a + b)) (read_json_string s3)
                  | _, _ => None
                  end
              | _ => None
              end
            else None
        | EmptyString => None
        end
      else continue_with c (read_json_string s1)
  end.

(** Drops a literal from the front of a string. *)
Fixpoint skip (literal s : string) : option string :=
  match literal with
  | EmptyString => Some s
  | String a literal' =>
      match s with
      | String b s' => if Ascii.eqb a b then skip literal' s' else None
      | EmptyString => None
      end
  end.

Definition read_member (key : string) (s : string) : option (string * string) :=
  match skip (json_string key ++ ":" ++ dquote) s with
  | Some s' => read_json_string s'
  | None => None
  end.

(** Reads a candidate back from its serialisation. *)
Definition JSON_parse (s : string) : option Prediction :=
  match skip "{" s with
  | Some s1 =>
      match read_member "description" s1 with
      | Some (d, s2) =>
          match skip "," s2 with
          | Some s3 =>
              match read_member "place_id" s3 with
              | Some (pid, s4) =>
                  match skip ("," ++ json_string "structured_formatting" ++ ":{") s4 with
                  | Some s5 =>
                      match read_member "main_text" s5 with
                      | Some (mt, s6) =>
                          match skip "," s6 with
                          | Some s7 =>
                              match read_member "secondary_text" s7 with
                              | Some (st, s8) =>
                                  match skip "}}" s8 with
                                  | Some EmptyString =>
                                      Some {| description := d; place_id := pid;
                                              structured_formatting :=
                                                {| main_text := mt;
                                                   secondary_text := st |} |}
                                  | _ => None
                                  end
                              | None => None
                              end
                          | None => None
                          end
                      | None => None
                      end
                  | None => None
                  end
              | None => None
              end
          | None => None
          end
      | None => None
      end
  | None => None
  end.

(** ** Proof steps *)

Ltac run_handler :=
  unfold bind, assign, store, emit, call, send, get_this, when, ret; simpl.

(** Unfolds the handlers down to the state and log they compute. *)
Ltac open_handlers :=
  cbv beta delta
    [exec log_of handle settle forget select clear _onKeyDown _onPaste _onBlur
     _clearOnBlur _clear _onChange _onChange_then _onChange_catch
     _geocode_then _geocode_catch _geocode _handleMarker _removeMarker
     _renderNoResults _renderError _renderMessage setInput _showButton
     _hideButton bind assign store emit call send get_this when ret];
  simpl.

(** Splits on the tests a handler makes, innermost first. *)
Ltac split_handler :=
  repeat (simpl;
          match goal with
          | |- context [match ?x with _ => _ end] =>
              lazymatch x with
              | context [match _ with _ => _ end] => fail
              | _ => destruct x eqn:?
              end
          end);
  simpl.

(** The same, using a known value of a test wherever it shows. *)
Ltac split_handler_with H :=
  repeat (simpl; rewrite ?H, ?andb_false_r; simpl;
          match goal with
          | |- context [match ?x with _ => _ end] =>
              lazymatch x with
              | context [match _ with _ => _ end] => fail
              | _ => destruct x eqn:?
              end
          end);
  simpl; rewrite ?H, ?andb_false_r; simpl.

(** ** Lemmas on the monad *)

Lemma exec_bind {A B} (m : M A) (k : A -> M B) (w : World) :
  exec (bind m k) w = exec (k (fst (fst (m w)))) (exec m w).
Proof.
  unfold exec, bind. destruct (m w) as [[a w1] l1]; simpl.
  destruct (k a w1) as [[b w2] l2]; reflexivity.
Qed.

Lemma log_of_bind {A B} (m : M A) (k : A -> M B) (w : World) :
  log_of (bind m k) w
  = (log_of m w ++ log_of (k (fst (fst (m w)))) (exec m w))%list.
Proof.
  unfold log_of, exec, bind. destruct (m w) as [[a w1] l1]; simpl.
  destruct (k a w1) as [[b w2] l2]; reflexivity.
Qed.

Lemma exec_eq {A} (m : M A) (w w' : World) (a : A) (l : list Action) :
  m w = (a, w', l) -> exec m w = w'.
Proof. intros H. unfold exec. rewrite H. reflexivity. Qed.

Lemma log_of_eq {A} (m : M A) (w w' : World) (a : A) (l : list Action) :
  m w = (a, w', l) -> log_of m w = l.
Proof. intros H. unfold log_of. rewrite H. reflexivity. Qed.

Lemma run_nil (w : World) : run [] w = (tt, w, []).
Proof. reflexivity. Qed.

Lemma exec_run_cons (i : Input) (ins : list Input) (w : World) :
  exec (run (i :: ins)) w = exec (run ins) (exec (handle i) w).
Proof. simpl. rewrite exec_bind. reflexivity. Qed.

Lemma log_of_run_cons (i : Input) (ins : list Input) (w : World) :
  log_of (run (i :: ins)) w
  = (log_of (handle i) w ++ log_of (run ins) (exec (handle i) w))%list.
Proof. simpl. rewrite log_of_bind. reflexivity. Qed.

(** ** Lemmas on the event loop *)

Lemma lookup_request_app
    (id : nat) (k : Continuation) (l rest : list (nat * Continuation)) :
  lookup_request id l = None ->
  lookup_request id (l ++ (id, k) :: rest) = Some k.
Proof.
  induction l as [| [i k'] l IH]; simpl.
  - rewrite Nat.eqb_refl. reflexivity.
  - destruct (Nat.eqb i id); [discriminate | exact IH].
Qed.

Lemma settle_search_resolved (w : World) (id : nat) (res : SearchBody) :
  lookup_request id (inflight w) = Some SearchCallbacks ->
  settle id (SearchResolved res) w = _geocode_then res (forget id w).
Proof. intros H. unfold settle. rewrite H. reflexivity. Qed.

Lemma settle_search_rejected (w : World) (id : nat) (error : option JsError) :
  lookup_request id (inflight w) = Some SearchCallbacks ->
  settle id (Rejected error) w = _geocode_catch error (forget id w).
Proof. intros H. unfold settle. rewrite H. reflexivity. Qed.

Lemma settle_detail_resolved (w : World) (id : nat) (sel : Prediction) (d : PlaceDetail) :
  lookup_request id (inflight w) = Some (DetailCallbacks sel) ->
  settle id (DetailResolved d) w = _onChange_then sel d (forget id w).
Proof. intros H. unfold settle. rewrite H. reflexivity. Qed.

Lemma settle_detail_rejected (w : World) (id : nat) (sel : Prediction) (error : option JsError) :
  lookup_request id (inflight w) = Some (DetailCallbacks sel) ->
  settle id (Rejected error) w = _onChange_catch error (forget id w).
Proof. intros H. unfold settle. rewrite H. reflexivity. Qed.


(** ** Request identifiers stay fresh *)

(** The handlers keep the identifiers of requests in order. *)
Lemma preserves_ret {A} (a : A) : preserves (ret a).
Proof. intros w H. exact H. Qed.

Lemma preserves_bind {A B} (m : M A) (k : A -> M B) :
  preserves m -> (forall a, preserves (k a)) -> preserves (bind m k).
Proof.
  intros Hm Hk w H. rewrite exec_bind. apply Hk, Hm, H.
Qed.

Lemma preserves_get_this : preserves get_this.
Proof. intros w H. exact H. Qed.

Lemma preserves_assign (f : Field) (upd : Geocoder -> Geocoder) :
  preserves (assign f upd).
Proof. intros w H. exact H. Qed.

Lemma preserves_store (c : StoreCall) : preserves (store c).
Proof. intros w H. exact H. Qed.

Lemma preserves_emit (e : Event) : preserves (emit e).
Proof. intros w H. exact H. Qed.

Lemma preserves_call (a : Action) : preserves (call a).
Proof. intros w H. exact H. Qed.

Lemma preserves_when (b : bool) (m : M unit) :
  preserves m -> preserves (when b m).
Proof. intros Hm. destruct b; [exact Hm | apply preserves_ret]. Qed.

Lemma preserves_send (r : Request) (k : Continuation) : preserves (send r k).
Proof.
  intros w H. unfold well_formed, exec, send in *. simpl.
  apply Forall_app. split.
  - eapply Forall_impl; [| exact H]. intros [i c] Hi. simpl in *. lia.
  - constructor; [simpl; lia | constructor].
Qed.

Create HintDb handlers.

#[local] Hint Resolve preserves_ret preserves_get_this preserves_assign
  preserves_store preserves_emit preserves_call preserves_send
  preserves_when : handlers.

Ltac preserves_step :=
  cbv zeta;
  repeat first
    [ apply preserves_bind; [| intros ]
    | progress auto with handlers
    | match goal with
      | |- preserves (match ?x with _ => _ end) => destruct x
      | |- preserves (if ?x then _ else _) => destruct x
      end ].

Lemma preserves__removeMarker : preserves _removeMarker.
Proof. unfold _removeMarker. preserves_step. Qed.

#[local] Hint Resolve preserves__removeMarker : handlers.

Lemma preserves__renderMessage (msg : string) : preserves (_renderMessage msg).
Proof. unfold _renderMessage. preserves_step. Qed.

#[local] Hint Resolve preserves__renderMessage : handlers.

Lemma preserves__handleMarker (d : PlaceDetail) : preserves (_handleMarker d).
Proof. unfold _handleMarker. preserves_step. Qed.

#[local] Hint Resolve preserves__handleMarker : handlers.

Lemma preserves__onChange : preserves _onChange.
Proof. unfold _onChange. preserves_step. Qed.

#[local] Hint Resolve preserves__onChange : handlers.

Lemma preserves__geocode (q : string) : preserves (_geocode q).
Proof. unfold _geocode. preserves_step. Qed.

#[local] Hint Resolve preserves__geocode : handlers.

Lemma preserves__clear (ev : bool) : preserves (_clear ev).
Proof. unfold _clear. preserves_step. Qed.

#[local] Hint Resolve preserves__clear : handlers.

Lemma preserves_callbacks :
  (forall res, preserves (_geocode_then res)) /\
  (forall error, preserves (_geocode_catch error)) /\
  (forall sel d, preserves (_onChange_then sel d)) /\
  (forall error, preserves (_onChange_catch error)).
Proof.
  repeat split; intros;
    unfold _geocode_then, _geocode_catch, _onChange_then, _onChange_catch,
      _renderNoResults, _renderError;
    preserves_step.
Qed.

Lemma well_formed_forget (id : nat) (w : World) :
  well_formed w -> well_formed (forget id w).
Proof.
  unfold well_formed, forget. simpl. generalize (next_request w). intros n.
  induction (inflight w) as [| [i k] l IH]; intros H; simpl; [constructor |].
  inversion H; subst.
  destruct (Nat.eqb i id); [assumption |].
  constructor; [assumption | apply IH; assumption].
Qed.

Lemma preserves_settle (id : nat) (s : Settlement) : preserves (settle id s).
Proof.
  destruct preserves_callbacks as (H1 & H2 & H3 & H4).
  intros w H. unfold exec, settle.
  destruct (lookup_request id (inflight w)) as [[| sel] |]; destruct s;
    try exact H;
    [ apply (H1 body) | apply (H2 error) | apply (H3 sel detail) | apply (H4 error) ];
    apply well_formed_forget, H.
Qed.

Lemma preserves_clear (ev : bool) : preserves (clear ev).
Proof. unfold clear. preserves_step. Qed.

#[local] Hint Resolve preserves_clear : handlers.

Lemma preserves_handle (i : Input) : preserves (handle i).
Proof.
  destruct i; simpl;
    unfold _onKeyDown, _onPaste, select, _onBlur, _clearOnBlur;
    try apply preserves_settle; preserves_step.
Qed.

Lemma preserves_run (ins : list Input) : preserves (run ins).
Proof.
  induction ins as [| i ins IH]; simpl.
  - apply preserves_ret.
  - apply preserves_bind; [apply preserves_handle | intros; exact IH].
Qed.

(** In a well-formed world the next identifier is not in flight. *)
Lemma well_formed_fresh (w : World) :
  well_formed w -> lookup_request (next_request w) (inflight w) = None.
Proof.
  unfold well_formed. generalize (next_request w). intros n.
  induction (inflight w) as [| [i k] l IH]; intros H; simpl; [reflexivity |].
  inversion H; subst. simpl in *.
  destruct (Nat.eqb_spec i n); [lia | apply IH; assumption].
Qed.

(** Whatever the inputs since the control was mounted, the identifier of the
    next request is fresh. *)
Lemma reachable_fresh (opts : Options) (map : option MapView) (ins : list Input) :
  let w := exec (run ins) (mount opts map) in
  lookup_request (next_request w) (inflight w) = None.
Proof.
  intros w. apply well_formed_fresh. apply preserves_run. constructor.
Qed.

(** ** Stale search responses (C1) *)

(** C1, counterexample: after searches for "Ha" and "Han", the late answer
    to "Ha" still replaces the list and emits [results]. *)
Lemma C1_stale_response_is_applied : ~ stale_response_is_silent.
Proof.
  intros H.
  destruct (H on_map "Ha" "Han" (SearchResolved {| predictions := [hanoi] |}))
    as [_ Hlog].
  vm_compute in Hlog. discriminate Hlog.
Qed.

(** The response of any search in flight is applied when it arrives. *)
Lemma search_response_applied
    (w : World) (id : nat) (p : Prediction) (ps : list Prediction) :
  lookup_request id (inflight w) = Some SearchCallbacks ->
  let res := {| predictions := p :: ps |} in
  let w' := exec (settle id (SearchResolved res)) w in
  data (_typeahead (this w')) = p :: ps /\
  _loadingEl_display (this w') = DisplayNone /\
  emitted (log_of (settle id (SearchResolved res)) w) = [EvResults res].
Proof.
  intros H res w'. subst w'. unfold exec, log_of.
  rewrite (settle_search_resolved _ _ _ H).
  unfold _geocode_then, bind, assign, get_this, when, emit, store, ret; simpl.
  destruct (fresh (this w)); simpl; auto.
Qed.

(** C1, as amended: the controller keeps no request token.  When a second
    search has been issued before the first is answered, the late response
    to the first is still applied: with predictions it hides the loading
    indicator, replaces the suggestion list by them and emits [results]. *)
Theorem C1_superseded_response_is_applied
    (w : World) (q1 q2 : string) (p : Prediction) (ps : list Prediction) :
  well_formed w ->
  let stale := next_request w in
  let w2 := exec (_geocode q1 ;; _geocode q2) w in
  let res := {| predictions := p :: ps |} in
  let w' := exec (settle stale (SearchResolved res)) w2 in
  inputString (this w2) = q2 /\
  data (_typeahead (this w')) = p :: ps /\
  _loadingEl_display (this w') = DisplayNone /\
  emitted (log_of (settle stale (SearchResolved res)) w2) = [EvResults res].
Proof.
  intros Hwf stale w2 res w'. subst stale w' res.
  split; [reflexivity |].
  apply search_response_applied.
  subst w2. unfold exec, _geocode. run_handler.
  rewrite <- app_assoc. simpl.
  apply lookup_request_app, well_formed_fresh, Hwf.
Qed.

(** The searches for "Ha" and "Han" of the counterexample. *)
Lemma C1_superseded_response_is_applied_witness :
  let w2 := exec (_geocode "Ha" ;; _geocode "Han") on_map in
  well_formed on_map /\
  data (_typeahead (this (exec (settle 0%nat (SearchResolved {| predictions := [hanoi] |})) w2)))
    = [hanoi].
Proof.
  intros w2. split; [constructor |].
  apply (C1_superseded_response_is_applied on_map "Ha" "Han" hanoi []).
  constructor.
Defined.

(** ** Selection (C2, C5, C6, C10) *)

(** A selection that passes both tests of [_onChange] sends the detail
    request for the candidate's [place_id] and leaves the callbacks waiting. *)
Lemma select_sends (w : World) (p : Prediction) :
  flyTo_truthy (flyTo (options (this w))) = true ->
  differs_from_last (JSON_stringify p) (lastSelected (this w)) = true ->
  select p w =
    (tt,
     {| this := map_typeahead (typeahead_set_selected (Some p)) (this w);
        inflight := (inflight w ++ [(next_request w, DetailCallbacks p)])%list;
        next_request := S (next_request w) |},
     [Store (StoreSelect p);
      Send (next_request w) (PlaceDetailRequest (place_id p))]).
Proof.
  intros Hfly Hdiff. unfold select, _onChange. run_handler.
  rewrite Hdiff, Hfly. reflexivity.
Qed.

(** The guard of line 301: the candidate serialises to [lastSelected]. *)
Lemma select_unchanged (w : World) (p : Prediction) :
  lastSelected (this w) = Some (JSON_stringify p) ->
  select p w =
    (tt, with_this (map_typeahead (typeahead_set_selected (Some p))) w,
     [Store (StoreSelect p)]).
Proof.
  intros Hlast. unfold select, _onChange. run_handler.
  rewrite Hlast. simpl. rewrite String.eqb_refl. reflexivity.
Qed.


(** The recentring command always carries [[lng, lat]] of the detail. *)
Lemma flyOptions_center (g : Geocoder) (d : PlaceDetail) :
  fly_center (flyOptions_for g d)
  = Some (lng (location (geometry (result d))),
          lat (location (geometry (result d)))).
Proof. reflexivity. Qed.

(** The success callback on a control bound to a map with markers enabled:
    recentre, place the marker, restore focus and cursor, record the
    selection, emit [result]. *)
Lemma _onChange_then_on_map (w : World) (sel : Prediction) (d : PlaceDetail) :
  _map (this w) = true ->
  _goongjs (this w) = true ->
  marker_truthy (marker (options (this w))) = true ->
  exists marker_log,
    log_of (_onChange_then sel d) w =
      ([Write F_clearEl_display; MapFlyTo (flyOptions_for (this w) d)]
       ++ marker_log
       ++ [Write F_mapMarker;
           MarkerAddTo {| marker_color := extend_marker_color (marker (options (this w)));
                          marker_lngLat := detail_lngLat d |};
           Dom InputFocus; Dom InputScrollLeft; Dom InputSetSelectionRange;
           Write F_lastSelected; Emit (EvResult d)])%list /\
    lastSelected (this (exec (_onChange_then sel d) w)) = Some (JSON_stringify sel).
Proof.
  intros Hmap Hgoong Hmarker.
  unfold log_of, exec, _onChange_then, _handleMarker, _removeMarker.
  run_handler. rewrite Hmap, Hmarker, Hgoong. simpl. rewrite Hmap. simpl.
  destruct (mapMarker (this w)); simpl.
  - exists [MarkerRemove; Write F_mapMarker]. split; reflexivity.
  - exists []. split; reflexivity.
Qed.

(** C2, at the failing input: on a control with [flyTo: false], selecting a
    candidate that differs from the last confirmed one sends no detail
    request and emits nothing; the handler returns at lines 302-304. *)
Theorem C2_flyTo_disabled_drops_the_selection :
  differs_from_last (JSON_stringify hanoi) (lastSelected (this on_map_no_fly)) = true /\
  log_of (select hanoi) on_map_no_fly = [Store (StoreSelect hanoi)] /\
  inflight (exec (select hanoi) on_map_no_fly) = [] /\
  detail_requests (log_of (select hanoi) on_map) = ["p1"].
Proof. repeat split. Qed.

(** C5: a rejected detail request only emits [error]: nothing is rendered,
    no [results] is emitted and the controller is left as it was; a rejected
    search (other than an abort) renders the error message and emits
    [results] and [error]. *)
Theorem C5_detail_failure_emits_error_only
    (w : World) (id : nat) (k : Continuation) (error : option JsError) :
  lookup_request id (inflight w) = Some k ->
  match k with
  | DetailCallbacks _ =>
      settle id (Rejected error) w = (tt, forget id w, [Emit (EvError error)])
  | SearchCallbacks =>
      aborted error = false ->
      rendered (log_of (settle id (Rejected error)) w) = [errorMessage] /\
      emitted (log_of (settle id (Rejected error)) w)
        = [EvResults {| predictions := [] |}; EvError error]
  end.
Proof.
  intros H. destruct k as [| sel].
  - intros Hab. unfold log_of. rewrite (settle_search_rejected _ _ _ H).
    unfold _geocode_catch. rewrite Hab. split; reflexivity.
  - rewrite (settle_detail_rejected _ _ _ _ H). reflexivity.
Qed.

Lemma C5_detail_failure_emits_error_only_witness :
  let w := exec (select hanoi) on_map in
  lookup_request 0%nat (inflight w) = Some (DetailCallbacks hanoi) /\
  settle 0%nat (Rejected server_error) w
    = (tt, forget 0%nat w, [Emit (EvError server_error)]).
Proof.
  intros w. split; [reflexivity |].
  apply (C5_detail_failure_emits_error_only w 0%nat (DetailCallbacks hanoi) server_error).
  reflexivity.
Defined.


(** Whatever the map and marker settings, the success callback records the
    serialised candidate and sends nothing. *)
Lemma _onChange_then_records (w : World) (sel : Prediction) (d : PlaceDetail) :
  lastSelected (this (exec (_onChange_then sel d) w)) = Some (JSON_stringify sel) /\
  options (this (exec (_onChange_then sel d) w)) = options (this w) /\
  detail_requests (log_of (_onChange_then sel d) w) = [] /\
  emitted (log_of (_onChange_then sel d) w) = [EvResult d].
Proof.
  unfold log_of, exec, _onChange_then, _handleMarker, _removeMarker.
  run_handler.
  destruct (_map (this w)) eqn:Hmap;
    destruct (marker_truthy (marker (options (this w))));
    destruct (_goongjs (this w));
    simpl; rewrite ?Hmap; simpl;
    destruct (mapMarker (this w)); simpl; repeat split.
Qed.




(** C10: when the detail request of a selection is rejected, [lastSelected]
    stays as it was, and a further selection event of the same candidate
    sends a new detail request; only a successful answer records the
    candidate. *)
Theorem C10_failed_detail_keeps_lastSelected
    (w : World) (p : Prediction) (error : option JsError) (detail : PlaceDetail) :
  flyTo_truthy (flyTo (options (this w))) = true ->
  differs_from_last (JSON_stringify p) (lastSelected (this w)) = true ->
  lookup_request (next_request w) (inflight w) = None ->
  let failed := exec (run [Select p; Settle (next_request w) (Rejected error)]) w in
  let succeeded := exec (run [Select p; Settle (next_request w) (DetailResolved detail)]) w in
  lastSelected (this failed) = lastSelected (this w) /\
  detail_requests (log_of (select p) failed) = [place_id p] /\
  lastSelected (this succeeded) = Some (JSON_stringify p).
Proof.
  intros Hfly Hdiff Hfresh failed succeeded. subst failed succeeded.
  rewrite !exec_run_cons, !(exec_eq _ _ _ _ _ (run_nil _)). simpl handle.
  pose proof (select_sends w p Hfly Hdiff) as E1.
  rewrite (exec_eq _ _ _ _ _ E1).
  match goal with
  | |- context [exec (settle ?i (Rejected error)) ?w1] =>
      assert (E2 : settle i (Rejected error) w1 = _onChange_catch error (forget i w1))
        by (apply (settle_detail_rejected w1 i p); simpl;
            apply lookup_request_app, Hfresh);
      assert (E3 : settle i (DetailResolved detail) w1
                   = _onChange_then p detail (forget i w1))
        by (apply settle_detail_resolved; simpl; apply lookup_request_app, Hfresh)
  end.
  unfold exec. rewrite E2, E3. simpl.
  repeat split.
  - unfold log_of. rewrite select_sends by (simpl; assumption). reflexivity.
  - apply _onChange_then_records.
Qed.

Lemma C10_failed_detail_keeps_lastSelected_witness :
  let failed := exec (run [Select hanoi; Settle 0%nat (Rejected server_error)]) on_map in
  flyTo_truthy (flyTo (options (this on_map))) = true /\
  differs_from_last (JSON_stringify hanoi) (lastSelected (this on_map)) = true /\
  lookup_request (next_request on_map) (inflight on_map) = None /\
  lastSelected (this failed) = None /\
  detail_requests (log_of (select hanoi) failed) = ["p1"].
Proof.
  intros failed.
  repeat (split; [reflexivity |]).
  apply (C10_failed_detail_keeps_lastSelected on_map hanoi server_error hanoi_detail);
    reflexivity.
Defined.

(** ** Search responses (C3, C4, C9) *)

(** C4: a rejected search whose error has [status] exactly 0 changes nothing
    and emits nothing; any other rejection renders the error message and
    emits [results] with an empty list and [error]. *)
Theorem C4_search_failure (w : World) (id : nat) (error : option JsError) :
  lookup_request id (inflight w) = Some SearchCallbacks ->
  let zero_status := exists e, error = Some e /\ status e = JsNumber 0 in
  let w' := exec (settle id (Rejected error)) w in
  let log := log_of (settle id (Rejected error)) w in
  (zero_status -> this w' = this w /\ log = []) /\
  (~ zero_status ->
   rendered_message (_typeahead (this w')) = Some errorMessage /\
   rendered log = [errorMessage] /\
   emitted log = [EvResults {| predictions := [] |}; EvError error]).
Proof.
  intros H zero_status w' log. subst zero_status w' log.
  unfold exec, log_of. rewrite (settle_search_rejected _ _ _ H).
  unfold _geocode_catch. split.
  - intros (e & -> & Hs). simpl. rewrite Hs. simpl. split; reflexivity.
  - intros Hnz.
    assert (Hab : aborted error = false).
    { destruct error as [e |]; [| reflexivity]. simpl.
      destruct (status e) as [| | n | s] eqn:Hs; try reflexivity.
      destruct n; try reflexivity.
      exfalso. apply Hnz. exists e. split; [reflexivity | exact Hs]. }
    rewrite Hab. repeat split.
Qed.

Lemma C4_search_failure_witness :
  let w := exec (_onPaste "Hano") on_map in
  lookup_request 0%nat (inflight w) = Some SearchCallbacks /\
  (this (exec (settle 0%nat (Rejected abort_error)) w) = this w /\
   log_of (settle 0%nat (Rejected abort_error)) w = []) /\
  emitted (log_of (settle 0%nat (Rejected server_error)) w)
    = [EvResults {| predictions := [] |}; EvError server_error].
Proof.
  intros w. split; [reflexivity | split].
  - apply (C4_search_failure w 0%nat abort_error); [reflexivity |].
    eexists. split; reflexivity.
  - apply (C4_search_failure w 0%nat server_error); [reflexivity |].
    intros (e & He & Hs). inversion He; subst e. discriminate Hs.
Defined.

(** C9: a search answered with no prediction clears the selection, renders
    the no-results message and never the error message, and emits [results]
    with the empty list. *)
Theorem C9_empty_result (w : World) (id : nat) (res : SearchBody) :
  lookup_request id (inflight w) = Some SearchCallbacks ->
  predictions res = [] ->
  let w' := exec (settle id (SearchResolved res)) w in
  let log := log_of (settle id (SearchResolved res)) w in
  selected (_typeahead (this w')) = None /\
  data (_typeahead (this w')) = [] /\
  rendered_message (_typeahead (this w')) = Some noResultsMessage /\
  rendered log = [noResultsMessage] /\
  ~ In errorMessage (rendered log) /\
  emitted log = [EvResults res].
Proof.
  intros H Hempty w' log. subst w' log.
  unfold exec, log_of. rewrite (settle_search_resolved _ _ _ H).
  unfold _geocode_then, _renderNoResults, _renderMessage. run_handler.
  rewrite Hempty.
  destruct (fresh (this w)); simpl; repeat split; try reflexivity;
    intros [Hin | []]; discriminate Hin.
Qed.

Lemma C9_empty_result_witness :
  let w := exec (run [Select hanoi; Paste "Hanoxx"]) on_map in
  lookup_request 1%nat (inflight w) = Some SearchCallbacks /\
  selected (_typeahead (this w)) = Some hanoi /\
  selected (_typeahead (this (exec (settle 1%nat (SearchResolved {| predictions := [] |})) w)))
    = None.
Proof.
  intros w. split; [reflexivity | split; [reflexivity |]].
  apply (C9_empty_result w 1%nat {| predictions := [] |}); reflexivity.
Defined.

(** C3, counterexample: a search answered with one prediction emits
    [results] and then updates the suggestion list. *)
Lemma C3_results_emitted_before_update : ~ emit_ends_every_transition.
Proof.
  intros H.
  specialize (H (SearchSuccess {| predictions := [hanoi] |}) on_map).
  vm_compute in H. discriminate H.
Qed.

(** C3, as amended: for an empty result, a search failure and a selection
    success every write precedes the emission; for a search answered with
    predictions the suggestion list is updated after [results] is emitted,
    and on clear [fresh] is set after [clear] is emitted. *)
Theorem C3_emit_order (w : World) :
  emit_is_last (log_of (_geocode_then {| predictions := [] |}) w) = true /\
  (forall error, emit_is_last (log_of (_geocode_catch error) w) = true) /\
  (forall sel detail, emit_is_last (log_of (_onChange_then sel detail) w) = true) /\
  (forall p ps, exists before,
      log_of (_geocode_then {| predictions := p :: ps |}) w
      = (before ++ [Emit (EvResults {| predictions := p :: ps |});
                    Store (StoreUpdate (p :: ps))])%list) /\
  (forall ev, exists before,
      log_of (_clear ev) w = (before ++ [Emit EvClear; Write F_fresh])%list).
Proof.
  repeat split.
  - unfold log_of, _geocode_then, _renderNoResults, _renderMessage. run_handler.
    destruct (fresh (this w)); reflexivity.
  - intros error. unfold log_of, _geocode_catch.
    destruct (aborted error); reflexivity.
  - intros sel detail.
    unfold log_of, _onChange_then, _handleMarker, _removeMarker. run_handler.
    destruct (_map (this w)) eqn:Hmap;
      destruct (marker_truthy (marker (options (this w))));
      destruct (_goongjs (this w));
      simpl; rewrite ?Hmap; simpl;
      destruct (mapMarker (this w)); reflexivity.
  - intros p ps. unfold log_of, _geocode_then. run_handler.
    destruct (fresh (this w)); simpl.
    + exists [Write F_loadingEl_display; Write F_fresh; Write F_clearEl_display].
      reflexivity.
    + exists [Write F_loadingEl_display; Write F_clearEl_display]. reflexivity.
  - intros ev. unfold log_of, _clear, _onChange, _removeMarker. run_handler.
    destruct ev; destruct (mapMarker (this w)); simpl; eexists;
      match goal with
      | |- ?l = _ => 
          let n := eval compute in (List.length l - 2)%nat in
          change l with (firstn n l ++ skipn n l)%list
      end; reflexivity.
Qed.

(** ** Key presses (C8) *)

Lemma searches_app (l1 l2 : list Action) :
  searches (l1 ++ l2) = (searches l1 ++ searches l2)%list.
Proof.
  induction l1 as [| a l1 IH]; simpl; [reflexivity |].
  destruct a as [| | | id [c | pid] | | | |]; simpl; rewrite ?IH; reflexivity.
Qed.

(** Clearing sends nothing: [_onChange] runs with the selection reset. *)
Lemma _clear_sends_nothing (ev : bool) (w : World) :
  searches (log_of (_clear ev) w) = [] /\
  detail_requests (log_of (_clear ev) w) = [].
Proof.
  unfold log_of, _clear, _onChange, _removeMarker. run_handler.
  destruct ev; destruct (mapMarker (this w)); split; reflexivity.
Qed.

Lemma escape_is_ignored (e : KeyEvent) :
  (keyCode e =? ESC_KEY_CODE) = true -> ignored_key e = true.
Proof.
  intros H. unfold ignored_key, navigation_keys. simpl. rewrite H.
  rewrite !orb_true_r. reflexivity.
Qed.

Lemma is_empty_spec (s : string) : is_empty s = true <-> s = EmptyString.
Proof. destruct s; simpl; split; congruence. Qed.

(** C8, counterexample: with two blanks in the input and [minLength] 2 the
    key press searches, though the trimmed text is empty. *)
Lemma C8_blank_text_is_searched : ~ search_iff_trimmed_length_suffices.
Proof.
  intros H.
  destruct (H (with_this (set_inputEl_value "  ") on_map) key_a) as [Hsearch _].
  assert (Hlen : 2 <= 0); [| lia].
  apply Hsearch. vm_compute. discriminate.
Qed.

(** When [_onKeyDown] searches, and for what. *)
Lemma _onKeyDown_searches (w : World) (e : KeyEvent) :
  let value := target_value (this w) (target e) in
  let sent := searches (log_of (_onKeyDown e) w) in
  (sent <> [] <->
   (value <> EmptyString /\
    minLength (options (this w)) <= js_length value /\
    ignored_key e = false)) /\
  (sent = [] \/ sent = [search_config (this w) value]).
Proof.
  intros value sent. subst value sent.
  unfold _onKeyDown. rewrite log_of_bind.
  change (log_of get_this w) with (@nil Action).
  change (exec get_this w) with w.
  change (fst (fst (get_this w))) with (this w).
  rewrite app_nil_l.
  destruct ((keyCode e =? ESC_KEY_CODE) && clearAndBlurOnEsc (options (this w)))
    eqn:Hesc.
  - (* escape clears and blurs *)
    apply andb_true_iff in Hesc. destruct Hesc as [Hesc _].
    rewrite log_of_bind, searches_app.
    rewrite (proj1 (_clear_sends_nothing true w)).
    split; [| left; reflexivity].
    split; [intros Hs; exfalso; apply Hs; reflexivity |].
    intros (_ & _ & Hig). rewrite (escape_is_ignored e Hesc) in Hig. discriminate.
  - destruct (is_empty (target_value (this w) (target e))) eqn:Hempty.
    + (* no text: the control is cleared *)
      apply is_empty_spec in Hempty.
      assert (Hnone : searches
                (log_of (assign F_fresh (set_fresh true) ;;
                         when (negb (keyCode e =? TAB_KEY_CODE)) (clear true) ;;
                         assign F_clearEl_display (set_clearEl_display DisplayNone)) w)
                = []).
      { rewrite log_of_bind, searches_app. simpl fst.
        rewrite log_of_bind, searches_app.
        destruct (negb (keyCode e =? TAB_KEY_CODE)); simpl when.
        - unfold clear. rewrite log_of_bind, searches_app.
          rewrite (proj1 (_clear_sends_nothing true _)). reflexivity.
        - reflexivity. }
      rewrite Hnone. split; [| left; reflexivity].
      split; [intros Hs; exfalso; apply Hs; reflexivity |].
      intros (Hne & _). contradiction.
    + assert (Hne : target_value (this w) (target e) <> EmptyString).
      { intros Heq. apply is_empty_spec in Heq. congruence. }
      destruct (ignored_key e) eqn:Hig.
      * (* navigation or meta key *)
        split; [| left; reflexivity].
        split; [intros Hs; exfalso; apply Hs; reflexivity |].
        intros (_ & _ & Hf). discriminate.
      * destruct (minLength (options (this w))
                  <=? js_length (target_value (this w) (target e))) eqn:Hlen.
        -- apply Z.leb_le in Hlen. unfold log_of, _geocode. run_handler.
           split; [| right; reflexivity].
           split; [intros _; auto | intros _; discriminate].
        -- apply Z.leb_gt in Hlen. split; [| left; reflexivity].
           split; [intros Hs; exfalso; apply Hs; reflexivity |].
           intros (_ & Hle & _). lia.
Qed.

(** C8, as amended: a key press searches exactly when the text is not empty,
    its length, untrimmed, is at least [minLength], and the key is neither a
    navigation key nor pressed with the meta key; the one search then sent
    carries the text as it is. *)
Theorem C8_search_iff_length_suffices (w : World) (e : KeyEvent) :
  let value := target_value (this w) (target e) in
  let sent := searches (log_of (_onKeyDown e) w) in
  (sent <> [] <->
   (value <> EmptyString /\
    minLength (options (this w)) <= js_length value /\
    ignored_key e = false)) /\
  (sent = [] \/ sent = [search_config (this w) value]).
Proof. exact (_onKeyDown_searches w e). Qed.

(** ** Debounced typing (C7) *)

Lemma advance_not_due (t : Z) (p : Page) :
  not_due t p -> advance t p = (p, []).
Proof.
  unfold not_due, advance. destruct (timer p) as [[deadline e] |]; [| reflexivity].
  intros H. apply Z.leb_gt in H. rewrite H. reflexivity.
Qed.

(** Typing fast only re-arms the timer: the wrapped handler does not run,
    and the timer is left holding the last event. *)
Lemma type_keys_rapid (ks : list Keystroke) :
  forall (k : Keystroke) (p : Page),
    rapid (k :: ks) = true ->
    not_due (at_time k) p ->
    type_keys (k :: ks) p =
      ({| world := with_this (set_inputEl_value (value_after (final k ks))) (world p);
          timer := Some (at_time (final k ks) + wait, event (final k ks)) |},
       []).
Proof.
  induction ks as [| k2 ks IH]; intros k p Hrapid Hdue.
  - simpl. unfold press. rewrite (advance_not_due _ _ Hdue). reflexivity.
  - change (rapid (k :: k2 :: ks))
      with ((at_time k <=? at_time k2) && (at_time k2 <? at_time k + wait)
            && rapid (k2 :: ks)) in Hrapid.
    apply andb_true_iff in Hrapid. destruct Hrapid as [Hgap Hrest].
    apply andb_true_iff in Hgap. destruct Hgap as [_ Hlt].
    apply Z.ltb_lt in Hlt.
    change (type_keys (k :: k2 :: ks) p)
      with (let '(p1, l1) := press k p in
            let '(p2, l2) := type_keys (k2 :: ks) p1 in (p2, (l1 ++ l2)%list)).
    unfold press at 1. rewrite (advance_not_due _ _ Hdue).
    rewrite IH; [reflexivity | exact Hrest | exact Hlt].
Qed.

(** C7: while keys are pressed less than 200 ms apart the debounced listener
    dispatches nothing; when the timer then expires, [_onKeyDown] runs once,
    on the last event and the text the input then holds, so that at most one
    search is sent and it is the last keystroke's. *)
Theorem C7_only_last_keystroke_dispatches
    (k : Keystroke) (ks : list Keystroke) (p : Page) :
  timer p = None ->
  rapid (k :: ks) = true ->
  let last_key := final k ks in
  let typed := type_keys (k :: ks) p in
  let settled := expire (fst typed) in
  let at_last := with_this (set_inputEl_value (value_after last_key)) (world p) in
  let query := target_value (this at_last) (target (event last_key)) in
  snd typed = [] /\
  snd settled = log_of (_onKeyDown (event last_key)) at_last /\
  timer (fst settled) = None /\
  (searches (snd settled) = [] \/
   searches (snd settled) = [search_config (this at_last) query]).
Proof.
  intros Hidle Hrapid last_key typed settled at_last query.
  subst typed settled.
  rewrite (type_keys_rapid ks k p Hrapid)
    by (unfold not_due; rewrite Hidle; exact I).
  fold last_key. simpl fst. simpl snd. fold at_last.
  assert (Hexp : snd (expire {| world := at_last;
                                timer := Some (at_time last_key + wait, event last_key) |})
                 = log_of (_onKeyDown (event last_key)) at_last
                 /\ timer (fst (expire {| world := at_last;
                                timer := Some (at_time last_key + wait, event last_key) |}))
                    = None).
  { unfold expire, log_of. simpl.
    destruct (_onKeyDown (event last_key) at_last) as [[u w'] l]. split; reflexivity. }
  destruct Hexp as [Hlog Htimer].
  split; [reflexivity |]. split; [exact Hlog |]. split; [exact Htimer |].
  rewrite Hlog. exact (proj2 (_onKeyDown_searches at_last (event last_key))).
Qed.

Lemma C7_only_last_keystroke_dispatches_witness :
  let p := {| world := on_map; timer := None |} in
  timer p = None /\
  rapid (key_h :: typing_hano) = true /\
  snd (type_keys (key_h :: typing_hano) p) = [] /\
  List.map q_input (searches (snd (expire (fst (type_keys (key_h :: typing_hano) p)))))
    = ["Hano"].
Proof.
  intros p. split; [reflexivity | split; [reflexivity |]].
  destruct (C7_only_last_keystroke_dispatches key_h typing_hano p eq_refl eq_refl)
    as (Htyped & Hlog & _).
  split; [exact Htyped |].
  rewrite Hlog. reflexivity.
Defined.


(** ** The serialisation of a candidate can be read back *)

Lemma string_app_assoc (a b c : string) : ((a ++ b) ++ c = a ++ (b ++ c))%string.
Proof.
  induction a as [| x a IH]; simpl; [reflexivity | rewrite IH; reflexivity].
Qed.

(** One escaped character is read back as the character. *)
Lemma read_escaped_char (c : ascii) (rest : string) :
  read_json_string (json_escape_char c ++ rest)
  = continue_with c (read_json_string rest).
Proof.
  destruct c as [b0 b1 b2 b3 b4 b5 b6 b7].
  destruct b0, b1, b2, b3, b4, b5, b6, b7; reflexivity.
Qed.

Lemma read_escaped (s rest : string) :
  read_json_string (json_escape s ++ String (ascii_of_nat 34) rest) = Some (s, rest).
Proof.
  induction s as [| c s IH].
  - reflexivity.
  - cbn [json_escape]. rewrite string_app_assoc, read_escaped_char, IH.
    reflexivity.
Qed.

Lemma skip_app (literal s : string) : skip literal (literal ++ s) = Some s.
Proof.
  induction literal as [| a l IH]; simpl; [reflexivity |].
  rewrite Ascii.eqb_refl. exact IH.
Qed.

Lemma read_member_app (key value rest : string) :
  read_member key (json_member key (json_string value) ++ rest) = Some (value, rest).
Proof.
  unfold read_member, json_member.
  replace ((json_string key ++ ":" ++ json_string value) ++ rest)
    with ((json_string key ++ ":" ++ dquote)
          ++ (json_escape value ++ String (ascii_of_nat 34) rest)).
  - rewrite skip_app. apply read_escaped.
  - unfold json_string at 3. unfold dquote.
    rewrite !string_app_assoc. simpl. rewrite !string_app_assoc. reflexivity.
Qed.

(** Parsing the serialisation of a candidate gives the candidate back. *)
Lemma JSON_parse_stringify (p : Prediction) : JSON_parse (JSON_stringify p) = Some p.
Proof.
  destruct p as [d pid [mt st]].
  unfold JSON_parse, JSON_stringify.
  cbn [description place_id structured_formatting main_text secondary_text].
  rewrite (skip_app "{"), read_member_app, (skip_app ","), read_member_app.
  replace ("," ++
           json_member "structured_formatting"
             ("{" ++ json_member "main_text" (json_string mt) ++ "," ++
              json_member "secondary_text" (json_string st) ++ "}") ++ "}")
    with (("," ++ json_string "structured_formatting" ++ ":{")
          ++ (json_member "main_text" (json_string mt)
              ++ ("," ++ (json_member "secondary_text" (json_string st) ++ "}}")))).
  - rewrite skip_app, read_member_app, (skip_app ","), read_member_app.
    reflexivity.
  - unfold json_member at 3.
    rewrite !string_app_assoc. simpl. rewrite !string_app_assoc. reflexivity.
Qed.

Lemma JSON_stringify_injective (p q : Prediction) :
  JSON_stringify p = JSON_stringify q -> p = q.
Proof.
  intros H.
  assert (E : JSON_parse (JSON_stringify p) = JSON_parse (JSON_stringify q))
    by (rewrite H; reflexivity).
  rewrite !JSON_parse_stringify in E. congruence.
Qed.

(** ** What no input changes, and what a control without a map never does *)

Lemma flights_app (l1 l2 : list Action) :
  flights (l1 ++ l2) = (flights l1 ++ flights l2)%list.
Proof.
  induction l1 as [| a l1 IH]; simpl; [reflexivity |].
  destruct a; simpl; rewrite ?IH; reflexivity.
Qed.

Lemma markers_added_app (l1 l2 : list Action) :
  markers_added (l1 ++ l2) = (markers_added l1 ++ markers_added l2)%list.
Proof.
  induction l1 as [| a l1 IH]; simpl; [reflexivity |].
  destruct a; simpl; rewrite ?IH; reflexivity.
Qed.

Lemma marker_delta_app (l1 l2 : list Action) :
  marker_delta (l1 ++ l2) = marker_delta l1 + marker_delta l2.
Proof.
  induction l1 as [| a l1 IH]; [reflexivity |].
  destruct a; cbn [marker_delta app]; rewrite ?IH; lia.
Qed.

Lemma handle_frame (i : Input) (w : World) :
  options (this (exec (handle i) w)) = options (this w) /\
  _map (this (exec (handle i) w)) = _map (this w) /\
  _goongjs (this (exec (handle i) w)) = _goongjs (this w).
Proof.
  destruct i; open_handlers; split_handler; auto.
Qed.

(** X1: No key press, paste, selection, clear, blur or response changes the
    options, the map binding or the marker library of the control. *)
Theorem run_frame (ins : list Input) (w : World) :
  options (this (exec (run ins) w)) = options (this w) /\
  _map (this (exec (run ins) w)) = _map (this w) /\
  _goongjs (this (exec (run ins) w)) = _goongjs (this w).
Proof.
  revert w. induction ins as [| i ins IH]; intros w.
  - repeat split.
  - rewrite exec_run_cons.
    destruct (IH (exec (handle i) w)) as (Ho & Hm & Hg).
    destruct (handle_frame i w) as (Ho' & Hm' & Hg').
    repeat split; congruence.
Qed.

Lemma handle_without_map (i : Input) (w : World) :
  _map (this w) = false ->
  flights (log_of (handle i) w) = [] /\
  markers_added (log_of (handle i) w) = [] /\
  existsb has_location (searches (log_of (handle i) w)) = false.
Proof.
  intros H. destruct i; open_handlers; split_handler_with H;
    simpl; unfold has_location, search_config; simpl;
    rewrite ?H, ?andb_false_r; auto.
Qed.

Lemma handle_without_marker_library (i : Input) (w : World) :
  marker_truthy (marker (options (this w))) && _goongjs (this w) = false ->
  markers_added (log_of (handle i) w) = [].
Proof.
  intros H. destruct i; open_handlers; split_handler_with H;
    simpl; rewrite ?H; auto.
Qed.

Lemma handle_marker_balance (i : Input) (w : World) :
  marker_delta (log_of (handle i) w)
  = occupancy (exec (handle i) w) - occupancy w.
Proof.
  unfold occupancy.
  destruct i; open_handlers; split_handler; try reflexivity; congruence.
Qed.

Lemma run_without_map (ins : list Input) (w : World) :
  _map (this w) = false ->
  flights (log_of (run ins) w) = [] /\
  markers_added (log_of (run ins) w) = [] /\
  existsb has_location (searches (log_of (run ins) w)) = false.
Proof.
  revert w. induction ins as [| i ins IH]; intros w H.
  - repeat split.
  - rewrite log_of_run_cons, flights_app, markers_added_app, searches_app, existsb_app.
    destruct (handle_without_map i w H) as (Hf & Hm & Hs).
    destruct (handle_frame i w) as (_ & Hmap & _).
    destruct (IH (exec (handle i) w)) as (Hf' & Hm' & Hs'); [congruence |].
    rewrite Hf, Hm, Hs, Hf', Hm', Hs'. repeat split.
Qed.

(** X2: A control that was not added to a map (it was mounted on an element of
    the page) never recentres a map, never places a marker and never sends a
    location with a search, whatever its options and whatever happens. *)
Theorem control_without_map_never_reaches_one (opts : Options) (ins : list Input) :
  let log := log_of (run ins) (mount opts None) in
  flights log = [] /\
  markers_added log = [] /\
  existsb has_location (searches log) = false.
Proof. apply run_without_map. reflexivity. Qed.

Lemma run_without_marker_library (ins : list Input) (w : World) :
  marker_truthy (marker (options (this w))) && _goongjs (this w) = false ->
  markers_added (log_of (run ins) w) = [].
Proof.
  revert w. induction ins as [| i ins IH]; intros w H.
  - reflexivity.
  - rewrite log_of_run_cons, markers_added_app.
    rewrite (handle_without_marker_library i w H).
    destruct (handle_frame i w) as (Ho & _ & Hg).
    rewrite IH; [reflexivity | rewrite Ho, Hg; exact H].
Qed.

(** X3: When [options.goongjs] is missing, adding the control to a map switches
    [options.marker] off, and no marker is placed afterwards. *)
Theorem markers_disabled_without_goongjs
    (opts : Options) (view : MapView) (ins : list Input) :
  goongjs opts = false ->
  marker_truthy (marker (options (this (mount opts (Some view))))) = false /\
  markers_added (log_of (run ins) (mount opts (Some view))) = [].
Proof.
  intros H.
  assert (Hoff : marker_truthy (marker (options (this (mount opts (Some view))))) = false).
  { unfold mount, onAdd, GoongGeocoder, _updateProximity. simpl.
    destruct (trackProximity opts); [destruct (Qle_bool (getZoom view) (9 # 1)) |];
      simpl; rewrite H; simpl; destruct (marker_truthy (marker opts)) eqn:E;
      simpl; auto. }
  split; [exact Hoff |].
  apply run_without_marker_library. rewrite Hoff. reflexivity.
Qed.

Lemma markers_disabled_without_goongjs_witness :
  goongjs default_options = false /\
  marker_truthy (marker default_options) = true /\
  markers_added
    (log_of (run [Select hanoi; Settle 0%nat (DetailResolved hanoi_detail)])
            (mount default_options (Some city_view))) = [].
Proof.
  split; [reflexivity | split; [reflexivity |]].
  apply (markers_disabled_without_goongjs default_options city_view); reflexivity.
Defined.

Lemma run_marker_balance (ins : list Input) (w : World) :
  marker_delta (log_of (run ins) w) = occupancy (exec (run ins) w) - occupancy w.
Proof.
  revert w. induction ins as [| i ins IH]; intros w.
  - unfold log_of, exec. simpl. lia.
  - rewrite log_of_run_cons, exec_run_cons, marker_delta_app, IH,
      handle_marker_balance. lia.
Qed.

(** X4: The control keeps at most one marker on the map: over any sequence of
    inputs since it was added, the markers added less the markers removed
    are one when [mapMarker] is set and none otherwise. *)
Theorem at_most_one_marker (opts : Options) (map : option MapView) (ins : list Input) :
  let log := log_of (run ins) (mount opts map) in
  marker_delta log = occupancy (exec (run ins) (mount opts map)) /\
  0 <= marker_delta log <= 1.
Proof.
  intros log. subst log. rewrite run_marker_balance.
  assert (H0 : occupancy (mount opts map) = 0) by (destruct map; reflexivity).
  rewrite H0. split; [lia |].
  unfold occupancy. destruct (mapMarker _); lia.
Qed.

(** ** Clearing *)

(** X5: [_clear] resets the control whatever its state: marker, selection, list,
    last confirmed selection and text are gone, the clear button is hidden,
    [clear] is emitted once and nothing is sent; the requests in flight stay
    in flight. *)
Theorem clear_resets_the_control (ev : bool) (w : World) :
  let w' := exec (_clear ev) w in
  let log := log_of (_clear ev) w in
  mapMarker (this w') = None /\
  selected (_typeahead (this w')) = None /\
  data (_typeahead (this w')) = [] /\
  lastSelected (this w') = None /\
  _inputEl_value (this w') = EmptyString /\
  fresh (this w') = true /\
  _clearEl_display (this w') = DisplayNone /\
  emitted log = [EvClear] /\
  searches log = [] /\
  detail_requests log = [] /\
  marker_delta log = - occupancy w /\
  inflight w' = inflight w.
Proof.
  intros w' log. subst w' log. unfold occupancy. open_handlers.
  split_handler; repeat split; try reflexivity; congruence.
Qed.

(** X6: Clearing twice is clearing once: the second [_clear] leaves the control
    as the first left it and removes no marker. *)
Theorem clear_is_idempotent (ev ev' : bool) (w : World) :
  exec (_clear ev') (exec (_clear ev) w) = exec (_clear ev) w /\
  marker_delta (log_of (_clear ev') (exec (_clear ev) w)) = 0.
Proof.
  open_handlers.
  split_handler; split; try reflexivity; try congruence.
Qed.

(** X7: Clearing does not cancel a search in flight: when its answer arrives
    after the clear, the list is filled again and [results] is emitted. *)
Theorem response_after_clear_is_applied
    (w : World) (id : nat) (p : Prediction) (ps : list Prediction) :
  lookup_request id (inflight w) = Some SearchCallbacks ->
  let cleared := exec (clear true) w in
  let res := {| predictions := p :: ps |} in
  data (_typeahead (this cleared)) = [] /\
  data (_typeahead (this (exec (settle id (SearchResolved res)) cleared))) = p :: ps /\
  emitted (log_of (settle id (SearchResolved res)) cleared) = [EvResults res].
Proof.
  intros H cleared res.
  assert (Hin : inflight cleared = inflight w).
  { subst cleared. open_handlers. split_handler; reflexivity. }
  split.
  - subst cleared. open_handlers. split_handler; reflexivity.
  - destruct (search_response_applied cleared id p ps) as (Hd & _ & He).
    + rewrite Hin. exact H.
    + split; [exact Hd | exact He].
Qed.

Lemma response_after_clear_is_applied_witness :
  let w := exec (_onPaste "Hano") on_map in
  lookup_request 0%nat (inflight w) = Some SearchCallbacks /\
  data (_typeahead (this (exec (settle 0%nat (SearchResolved {| predictions := [hanoi] |}))
                               (exec (clear true) w)))) = [hanoi].
Proof.
  intros w. split; [reflexivity |].
  apply (response_after_clear_is_applied w 0%nat hanoi []). reflexivity.
Defined.

(** X8: After a clear there is no selection, so hovering the control does not
    bring the clear button back, and leaving it changes nothing either. *)
Theorem button_stays_hidden_after_clear (ev : bool) (w : World) :
  let cleared := exec (_clear ev) w in
  _showButton cleared = (tt, cleared, []) /\
  _hideButton cleared = (tt, cleared, []) /\
  _clearEl_display (this cleared) = DisplayNone.
Proof.
  intros cleared. subst cleared. open_handlers.
  split_handler; repeat split.
Qed.

(** ** Searching *)

Lemma ignored_key_not_escape (e : KeyEvent) :
  ignored_key e = false -> (keyCode e =? ESC_KEY_CODE) = false.
Proof.
  intros H. destruct (keyCode e =? ESC_KEY_CODE) eqn:E; [| reflexivity].
  rewrite (escape_is_ignored e E) in H. discriminate.
Qed.

(** X9: A paste is handled like the press of an ordinary key on the same text,
    without the wait, as long as the text is not empty.  An empty paste is
    still searched when [minLength] is 0 or less, where a key press on an
    empty input clears the control instead. *)
Theorem paste_is_an_immediate_key_press (w : World) (e : KeyEvent) (text : string) :
  target_value (this w) (target e) = text ->
  ignored_key e = false ->
  (text <> EmptyString -> _onPaste text w = _onKeyDown e w) /\
  (text = EmptyString -> minLength (options (this w)) <= 0 ->
   searches (log_of (_onPaste text) w) = [search_config (this w) EmptyString] /\
   searches (log_of (_onKeyDown e) w) = []).
Proof.
  intros Hvalue Hkey. pose proof (ignored_key_not_escape e Hkey) as Hesc. split.
  - intros Hne. unfold _onPaste, _onKeyDown, bind at 1 3, get_this. simpl.
    rewrite Hesc, Hvalue, Hkey. simpl.
    destruct text as [| c t]; [contradiction | simpl]. reflexivity.
  - intros -> Hmin. split.
    + unfold log_of, _onPaste, _geocode. run_handler.
      apply Z.leb_le in Hmin. unfold js_length. simpl. rewrite Hmin. reflexivity.
    + destruct (_onKeyDown_searches w e) as [Hiff _]. rewrite Hvalue in Hiff.
      destruct (searches (log_of (_onKeyDown e) w)); [reflexivity |].
      exfalso. assert (Hs : s :: l <> []) by discriminate.
      apply Hiff in Hs. destruct Hs as [Hne _]. apply Hne. reflexivity.
Qed.

Lemma paste_is_an_immediate_key_press_witness :
  let w := with_this (set_inputEl_value "Hano") on_map in
  target_value (this w) (target key_a) = "Hano" /\
  ignored_key key_a = false /\
  _onPaste "Hano" w = _onKeyDown key_a w.
Proof.
  intros w. split; [reflexivity | split; [reflexivity |]].
  apply (paste_is_an_immediate_key_press w key_a "Hano"); [reflexivity .. |].
  discriminate.
Defined.

Lemma number_truthy_iff (q : Q) : number_truthy q = true <-> ~ (q == 0 # 1)%Q.
Proof.
  unfold number_truthy. rewrite negb_true_iff.
  split.
  - intros H E. apply Qeq_bool_iff in E. congruence.
  - intros H. destruct (Qeq_bool q (0 # 1)) eqn:E; [| reflexivity].
    apply Qeq_bool_iff in E. contradiction.
Qed.


(** X11: The loading indicator, shown when a search goes out, is hidden by every
    answer to it except a rejection with status 0, which leaves it on. *)
Theorem loading_indicator_after_a_search (w : World) (text : string) (s : Settlement) :
  well_formed w ->
  let searching := exec (_geocode text) w in
  let settled := exec (settle (next_request w) s) searching in
  _loadingEl_display (this searching) = DisplayBlock /\
  _loadingEl_display (this settled)
  = match s with
    | SearchResolved _ => DisplayNone
    | Rejected error => if aborted error then DisplayBlock else DisplayNone
    | DetailResolved _ => DisplayBlock
    end.
Proof.
  intros Hwf searching settled.
  assert (Hlook : lookup_request (next_request w) (inflight searching)
                  = Some SearchCallbacks).
  { subst searching. unfold exec, _geocode. run_handler.
    apply lookup_request_app, well_formed_fresh, Hwf. }
  split; [reflexivity |].
  subst settled. unfold exec at 1, settle. rewrite Hlook.
  destruct s as [body | detail | error].
  - unfold _geocode_then, _renderNoResults, _renderMessage. run_handler.
    split_handler; reflexivity.
  - reflexivity.
  - unfold _geocode_catch. destruct (aborted error); reflexivity.
Qed.

Lemma loading_indicator_after_a_search_witness :
  well_formed on_map /\
  _loadingEl_display
    (this (exec (settle 0%nat (Rejected abort_error)) (exec (_geocode "Hano") on_map)))
  = DisplayBlock.
Proof.
  split; [constructor |].
  apply (loading_indicator_after_a_search on_map "Hano" (Rejected abort_error)).
  constructor.
Defined.

(** ** Selecting *)

(** X12: The recentring command of a successful selection: one when the control
    is on a map, none otherwise.  Its centre is [[lng, lat]] of the place
    even when [options.flyTo] brings a centre of its own; the zoom is that of
    [options.flyTo] when it has one and [options.zoom] otherwise. *)
Theorem recentring_command (w : World) (sel : Prediction) (d : PlaceDetail) :
  let o := options (this w) in
  flights (log_of (_onChange_then sel d) w)
  = if _map (this w)
    then [ {| fly_center := Some (detail_lngLat d);
              fly_zoom := match flyTo o with
                          | FlyToObject {| fly_zoom := Some z |} => Some z
                          | _ => Some (zoom o)
                          end;
              fly_speed := match flyTo o with
                           | FlyToObject custom => fly_speed custom
                           | FlyToBool _ => None
                           end |} ]
    else [].
Proof.
  intros o. subst o.
  destruct (_map (this w)) eqn:Hmap; open_handlers;
    unfold flyOptions_for, extend_fly, set_center, detail_lngLat, or_else;
    split_handler_with Hmap; simpl in *; congruence.
Qed.


(** X14: A selection from start to end: the candidate is picked, the detail
    request for its [place_id] goes out, and on the answer the candidate is
    recorded, the clear button hidden, the input focused and [result]
    emitted, once. *)
Theorem selection_completes (w : World) (p : Prediction) (d : PlaceDetail) :
  well_formed w ->
  flyTo_truthy (flyTo (options (this w))) = true ->
  differs_from_last (JSON_stringify p) (lastSelected (this w)) = true ->
  let steps := [Select p; Settle (next_request w) (DetailResolved d)] in
  let log := log_of (run steps) w in
  let w' := exec (run steps) w in
  detail_requests log = [place_id p] /\
  searches log = [] /\
  emitted log = [EvResult d] /\
  In (Dom InputFocus) log /\
  lastSelected (this w') = Some (JSON_stringify p) /\
  selected (_typeahead (this w')) = Some p /\
  _clearEl_display (this w') = DisplayNone.
Proof.
  intros Hwf Hfly Hdiff steps log w'. subst steps log w'.
  rewrite !log_of_run_cons, !exec_run_cons.
  rewrite (exec_eq _ _ _ _ _ (run_nil _)), (log_of_eq _ _ _ _ _ (run_nil _)).
  simpl handle.
  pose proof (select_sends w p Hfly Hdiff) as E1.
  rewrite (exec_eq _ _ _ _ _ E1), (log_of_eq _ _ _ _ _ E1).
  match goal with
  | |- context [exec (settle ?i ?s) ?w1] =>
      assert (E2 : settle i s w1 = _onChange_then p d (forget i w1))
        by (apply settle_detail_resolved; simpl;
            apply lookup_request_app, well_formed_fresh, Hwf)
  end.
  unfold exec, log_of. rewrite E2. clear E1 E2.
  open_handlers. split_handler; repeat split; simpl; auto 10.
Qed.

Lemma selection_completes_witness :
  well_formed on_map /\
  flyTo_truthy (flyTo (options (this on_map))) = true /\
  differs_from_last (JSON_stringify hanoi) (lastSelected (this on_map)) = true /\
  emitted (log_of (run [Select hanoi; Settle 0%nat (DetailResolved hanoi_detail)]) on_map)
    = [EvResult hanoi_detail].
Proof.
  split; [constructor | split; [reflexivity | split; [reflexivity |]]].
  apply (selection_completes on_map hanoi hanoi_detail);
    [constructor | reflexivity | reflexivity].
Defined.

(** X15: Switching [flyTo] off while a detail request is in flight does not stop
    its answer from recentring the map: the option is tested when the
    candidate is picked, not when the answer arrives. *)
Theorem flyTo_switched_off_in_flight (w : World) (p : Prediction) (d : PlaceDetail) :
  well_formed w ->
  flyTo_truthy (flyTo (options (this w))) = true ->
  differs_from_last (JSON_stringify p) (lastSelected (this w)) = true ->
  _map (this w) = true ->
  let waiting := write_option (setFlyTo (FlyToBool false)) (exec (select p) w) in
  let log := log_of (settle (next_request w) (DetailResolved d)) waiting in
  flyTo_truthy (flyTo (options (this waiting))) = false /\
  flights log = [ {| fly_center := Some (detail_lngLat d);
                     fly_zoom := Some (zoom (options (this w)));
                     fly_speed := None |} ] /\
  emitted log = [EvResult d].
Proof.
  intros Hwf Hfly Hdiff Hmap waiting log. subst waiting log.
  rewrite (exec_eq _ _ _ _ _ (select_sends w p Hfly Hdiff)).
  split; [reflexivity |].
  match goal with
  | |- context [log_of (settle ?i ?s) ?w1] =>
      assert (E2 : settle i s w1 = _onChange_then p d (forget i w1))
        by (apply settle_detail_resolved; simpl;
            apply lookup_request_app, well_formed_fresh, Hwf)
  end.
  unfold log_of. rewrite E2. clear E2.
  open_handlers. unfold flyOptions_for, detail_lngLat. simpl. rewrite Hmap.
  split_handler_with Hmap; split; reflexivity.
Qed.

Lemma flyTo_switched_off_in_flight_witness :
  let waiting := write_option (setFlyTo (FlyToBool false)) (exec (select hanoi) on_map) in
  well_formed on_map /\
  _map (this on_map) = true /\
  flights (log_of (settle 0%nat (DetailResolved hanoi_detail)) waiting)
    = [ {| fly_center := Some ((1058 # 10)%Q, (21 # 1)%Q);
           fly_zoom := Some 16;
           fly_speed := None |} ].
Proof.
  intros waiting. split; [constructor | split; [reflexivity |]].
  apply (flyTo_switched_off_in_flight on_map hanoi hanoi_detail);
    [constructor | reflexivity ..].
Defined.

(** X16: The guard against repeated selections compares whole candidates: with a
    last confirmed selection [p], picking [q] sends a detail request exactly
    when [q] differs from [p] in some field. *)
Theorem selection_guard_compares_candidates (w : World) (p q : Prediction) :
  lastSelected (this w) = Some (JSON_stringify p) ->
  flyTo_truthy (flyTo (options (this w))) = true ->
  (q = p -> detail_requests (log_of (select q) w) = []) /\
  (q <> p -> detail_requests (log_of (select q) w) = [place_id q]).
Proof.
  intros Hlast Hfly. split.
  - intros ->. rewrite (log_of_eq _ _ _ _ _ (select_unchanged w p Hlast)).
    reflexivity.
  - intros Hne.
    assert (Hdiff : differs_from_last (JSON_stringify q) (lastSelected (this w)) = true).
    { rewrite Hlast. unfold differs_from_last. apply negb_true_iff.
      destruct (String.eqb (JSON_stringify q) (JSON_stringify p)) eqn:E;
        [| reflexivity].
      apply String.eqb_eq, JSON_stringify_injective in E. contradiction. }
    rewrite (log_of_eq _ _ _ _ _ (select_sends w q Hfly Hdiff)). reflexivity.
Qed.

Lemma selection_guard_compares_candidates_witness :
  let w := exec (run [Select hanoi; Settle 0%nat (DetailResolved hanoi_detail)]) on_map in
  lastSelected (this w) = Some (JSON_stringify hanoi) /\
  flyTo_truthy (flyTo (options (this w))) = true /\
  detail_requests (log_of (select ha_long) w) = ["p2"].
Proof.
  intros w. split; [reflexivity | split; [reflexivity |]].
  apply (selection_guard_compares_candidates w hanoi ha_long);
    [reflexivity | reflexivity | discriminate].
Defined.

(** ** Keys that clear *)

(** X17: A key pressed on an empty input never searches: it marks the control
    fresh and hides the clear button; unless the key is Tab it also clears
    the control ([clear] is emitted, marker and last selection go) and
    focuses the input. *)
Theorem key_on_empty_input (w : World) (e : KeyEvent) :
  target_value (this w) (target e) = EmptyString ->
  (keyCode e =? ESC_KEY_CODE) && clearAndBlurOnEsc (options (this w)) = false ->
  let log := log_of (_onKeyDown e) w in
  let w' := exec (_onKeyDown e) w in
  searches log = [] /\
  detail_requests log = [] /\
  fresh (this w') = true /\
  _clearEl_display (this w') = DisplayNone /\
  if keyCode e =? TAB_KEY_CODE
  then emitted log = [] /\
       this w' = set_clearEl_display DisplayNone (set_fresh true (this w))
  else emitted log = [EvClear] /\
       lastSelected (this w') = None /\
       mapMarker (this w') = None /\
       In (Dom InputFocus) log.
Proof.
  intros Hvalue Hesc log w'. subst log w'. open_handlers.
  destruct (keyCode e =? TAB_KEY_CODE) eqn:Htab; split_handler;
    rewrite ?Hvalue in *; simpl in *; try congruence;
    repeat split; auto 15.
Qed.

Lemma key_on_empty_input_witness :
  let w := exec (run [Select hanoi; Settle 0%nat (DetailResolved hanoi_detail)]) on_map in
  target_value (this w) (target key_backspace) = EmptyString /\
  lastSelected (this w) = Some (JSON_stringify hanoi) /\
  emitted (log_of (_onKeyDown key_backspace) w) = [EvClear] /\
  lastSelected (this (exec (_onKeyDown key_backspace) w)) = None.
Proof.
  intros w. split; [reflexivity | split; [reflexivity |]].
  destruct (key_on_empty_input w key_backspace eq_refl eq_refl)
    as (_ & _ & _ & _ & He & Hl & _).
  split; [exact He | exact Hl].
Defined.

(** X18: With [clearAndBlurOnEsc], Escape clears the control and blurs the input
    whatever the text: nothing is searched, [clear] is emitted and the text
    is emptied. *)
Theorem escape_clears_and_blurs (w : World) (e : KeyEvent) :
  keyCode e = ESC_KEY_CODE ->
  clearAndBlurOnEsc (options (this w)) = true ->
  let log := log_of (_onKeyDown e) w in
  let w' := exec (_onKeyDown e) w in
  log = (log_of (_clear true) w ++ [Dom InputBlur])%list /\
  this w' = this (exec (_clear true) w) /\
  searches log = [] /\
  emitted log = [EvClear] /\
  _inputEl_value (this w') = EmptyString.
Proof.
  intros Hkey Hopt log w'. subst log w'. open_handlers.
  rewrite Hkey, Hopt. split_handler; repeat split.
Qed.

Lemma escape_clears_and_blurs_witness :
  let w := write_option
             (fun o => {| zoom := zoom o; flyTo := flyTo o;
                          trackProximity := trackProximity o;
                          minLength := minLength o; limit := limit o;
                          radius := radius o; marker := marker o;
                          goongjs := goongjs o; clearAndBlurOnEsc := true;
                          clearOnBlur := clearOnBlur o;
                          proximity := proximity o |})
             (with_this (set_inputEl_value "Hano") on_map) in
  let e := {| keyCode := 27; metaKey := false; target := TargetInput |} in
  clearAndBlurOnEsc (options (this w)) = true /\
  _inputEl_value (this w) = "Hano" /\
  _inputEl_value (this (exec (_onKeyDown e) w)) = EmptyString.
Proof.
  intros w e. split; [reflexivity | split; [reflexivity |]].
  apply (escape_clears_and_blurs w e); reflexivity.
Defined.

(** ** Setting the input *)

(** X19: [setInput] writes the text and empties selection and list; it sends
    nothing and emits nothing, and a [change] event that follows finds no
    selection to look up. *)
Theorem setInput_is_silent (w : World) (text : string) :
  let w' := exec (setInput text) w in
  let log := log_of (setInput text) w in
  _inputEl_value (this w') = text /\
  selected (_typeahead (this w')) = None /\
  data (_typeahead (this w')) = [] /\
  lastSelected (this w') = lastSelected (this w) /\
  mapMarker (this w') = mapMarker (this w) /\
  inflight w' = inflight w /\
  emitted log = [] /\
  searches log = [] /\
  detail_requests log = [] /\
  _onChange w' = (tt, w', []).
Proof.
  intros w' log. subst w' log. open_handlers. repeat split.
Qed.

(** ** Adding and removing the control *)

(** X20: [onRemove] takes the container off the page first, unsubscribes from the
    map when proximity was tracked on one, removes the marker if there is
    one and lets the map go; requests in flight stay in flight, and their
    answers no longer recentre a map or place a marker. *)
Theorem onRemove_lets_the_map_go (w : World) :
  let w' := fst (onRemove w) in
  let calls := snd (onRemove w) in
  _map (this w') = false /\
  mapMarker (this w') = None /\
  options (this w') = options (this w) /\
  inflight w' = inflight w /\
  calls = ((inl RemoveContainer
            :: (if trackProximity (options (this w)) && _map (this w)
                then [inl MapOffMoveend] else []))
           ++ match mapMarker (this w) with
              | Some _ => [inr MarkerRemove; inr (Write F_mapMarker)]
              | None => []
              end)%list /\
  forall ins, flights (log_of (run ins) w') = [] /\
              markers_added (log_of (run ins) w') = [].
Proof.
  intros w' calls. subst w' calls.
  destruct (mapMarker (this w)) as [m |] eqn:Hm.
  - assert (E : onRemove w
                = (with_this (set__map false) (with_this (set_mapMarker None) w),
                   (inl RemoveContainer
                    :: (if trackProximity (options (this w)) && _map (this w)
                        then [inl MapOffMoveend] else [])
                    ++ [inr MarkerRemove; inr (Write F_mapMarker)])%list)).
    { unfold onRemove, _removeMarker. run_handler. rewrite Hm. reflexivity. }
    rewrite E. simpl. repeat split; apply run_without_map; reflexivity.
  - assert (E : onRemove w
                = (with_this (set__map false) w,
                   (inl RemoveContainer
                    :: (if trackProximity (options (this w)) && _map (this w)
                        then [inl MapOffMoveend] else [])
                    ++ [])%list)).
    { unfold onRemove, _removeMarker. run_handler. rewrite Hm. reflexivity. }
    rewrite E. simpl. repeat split; try exact Hm; apply run_without_map; reflexivity.
Qed.


(** X22: After [setPlaceholder] the input shows, as placeholder and as label, the
    text given, or [options.placeholder], or Search, the first of them that
    is not empty; [getPlaceholder] still answers [options.placeholder], not
    the text that was set. *)
Theorem placeholder_shown (placeholder : option string) (st : Placeholders) :
  let st' := setPlaceholder placeholder st in
  _inputEl_placeholder st' = this_placeholder st' /\
  _inputEl_aria_label st' = this_placeholder st' /\
  string_truthy (this_placeholder st') = true /\
  this_placeholder st'
  = (if string_truthy placeholder then placeholder
     else if string_truthy (options_placeholder st) then options_placeholder st
     else Some "Search") /\
  getPlaceholder st' = getPlaceholder st.
Proof.
  unfold setPlaceholder, _getPlaceholderText, getPlaceholder. simpl.
  destruct placeholder as [[| c s] |]; simpl;
    destruct (options_placeholder st) as [[| c' s'] |]; simpl; repeat split.
Qed.

(** X23: When the map has moved, searches carry the centre of the map, latitude
    first, if the zoom is above 9, and no location if it is not; without a
    map the listener changes nothing. *)
Theorem proximity_follows_the_map (w : World) (view : MapView) (text : string) :
  let w' := on_moveend view w in
  let c := search_config (this w') text in
  let centre := getCenter_wrap view in
  (_map (this w) = false -> w' = w) /\
  (_map (this w) = true ->
   trackProximity (options (this w)) = true ->
   (Qle_bool (getZoom view) (9 # 1) = true -> q_location c = None) /\
   (Qle_bool (getZoom view) (9 # 1) = false ->
    ~ (fst centre == 0 # 1)%Q -> ~ (snd centre == 0 # 1)%Q ->
    q_location c = Some (snd centre, fst centre))).
Proof.
  intros w' c centre. subst w' c centre. unfold on_moveend. split.
  - intros ->. reflexivity.
  - intros Hmap Htrack. rewrite Hmap.
    unfold search_config, write_option, _updateProximity. simpl.
    rewrite Hmap. split.
    + intros Hz. rewrite Hz. simpl. rewrite Htrack. reflexivity.
    + intros Hz Hlng Hlat. rewrite Hz. simpl. rewrite Htrack. simpl.
      apply number_truthy_iff in Hlng, Hlat. rewrite Hlng, Hlat. reflexivity.
Qed.

Lemma proximity_follows_the_map_witness :
  _map (this on_map) = true /\
  trackProximity (options (this on_map)) = true /\
  Qle_bool (getZoom city_view) (9 # 1) = false /\
  q_location (search_config (this (on_moveend city_view on_map)) "Hano")
    = Some ((21 # 1)%Q, (1058 # 10)%Q).
Proof.
  split; [reflexivity | split; [reflexivity | split; [reflexivity |]]].
  destruct (proximity_follows_the_map on_map city_view "Hano") as [_ H].
  destruct (H eq_refl eq_refl) as [_ H'].
  apply H'; [reflexivity | |]; intros E; discriminate E.
Defined.
